(** * logops: argument resolution, level gating, formatters and child loggers

    A shallow embedding of [lib/logops.js] and [lib/formatters.js].

    - JavaScript values are a tree type [value].  Numbers are the
      integers.  An object is the ordered list of its own enumerable
      data properties, as [for .. in] and [Object.keys] enumerate them;
      it has no methods, accessors or prototype chain of its own.  A
      structure that refers back to an object enclosing it has the leaf
      [VCircular] at that place.
    - Fallible code returns [result]; a thrown exception is [Throw].
    - Logger instances live in a store (a list indexed by instance id):
      the closures of [logops] share the mutable objects [API] and
      [opts], and the context getter of a child reads its parent's.
    - A call of a level function returns the events it causes: the
      invocation of the formatter and the write to the stream.
    - What Node and the npm dependencies provide ([util.format], [chalk],
      [serr]) and what depends on the host ([toUpperCase], the time zone)
      are the interfaces [Runtime] and [Host]; [node_model] and
      [utc_host] are executable instances of them.  [JSON.stringify],
      [JSON.parse] and the safe-json-stringify package are defined here. *)

From Stdlib Require Import String Ascii List ZArith Lia Bool.
From stdpp Require Import base list strings.
Import ListNotations.

#[local] Set Warnings "-register-all".
Local Open Scope string_scope.
Local Open Scope list_scope.
Local Open Scope Z_scope.

(** ** Values *)

Inductive value : Type :=
| VUndefined
| VNull
| VBool (b : bool)
| VNum (n : Z)                          (* numbers: the integers *)
| VStr (s : string)
| VArr (elems : list value)
| VObj (props : list (string * value))  (* plain object: own enumerable properties, in order *)
| VDate (time : Z)                      (* Date: milliseconds since the epoch *)
| VErr (name message : string)          (* Error instance *)
| VFun (src : string)                   (* a function, with its source text *)
| VCircular.                            (* a reference back to an enclosing object *)

Abbreviation props := (list (string * value)).

Inductive exn : Type :=
| TypeError (msg : string).

Inductive result (A : Type) : Type :=
| Ok (a : A)
| Throw (e : exn).
Arguments Ok {A} a.
Arguments Throw {A} e.

Definition bind {A B} (r : result A) (k : A -> result B) : result B :=
  match r with
  | Ok a => k a
  | Throw e => Throw e
  end.

Notation "'let!' x ':=' r 'in' k" := (bind r (fun x => k))
  (at level 10, x name, r at level 100, k at level 200).

(** [try { body } catch (err) { handler }] *)
Definition try_catch {A} (body : result A) (handler : exn -> result A) : result A :=
  match body with
  | Ok a => Ok a
  | Throw e => handler e
  end.

(** ** Operators of the language *)

Inductive type_tag := TUndefined | TObject | TBoolean | TNumber | TString | TFunction.

Definition typeof (v : value) : type_tag :=
  match v with
  | VUndefined => TUndefined
  | VNull => TObject
  | VBool _ => TBoolean
  | VNum _ => TNumber
  | VStr _ => TString
  | VFun _ => TFunction
  | VArr _ | VObj _ | VDate _ | VErr _ _ | VCircular => TObject
  end.

Definition type_tag_eqb (a b : type_tag) : bool :=
  match a, b with
  | TUndefined, TUndefined | TObject, TObject | TBoolean, TBoolean
  | TNumber, TNumber | TString, TString | TFunction, TFunction => true
  | _, _ => false
  end.

(** [v instanceof Error], [v instanceof Date], [Array.isArray(v)] *)
Definition instanceof_Error (v : value) : bool :=
  match v with VErr _ _ => true | _ => false end.

Definition instanceof_Date (v : value) : bool :=
  match v with VDate _ => true | _ => false end.

Definition Array_isArray (v : value) : bool :=
  match v with VArr _ => true | _ => false end.

(** [v == null] *)
Definition loose_eq_null (v : value) : bool :=
  match v with VUndefined | VNull => true | _ => false end.

(** [v !== null] *)
Definition strict_ne_null (v : value) : bool :=
  match v with VNull => false | _ => true end.

(** ToBoolean *)
Definition truthy (v : value) : bool :=
  match v with
  | VUndefined | VNull => false
  | VBool b => b
  | VNum n => negb (n =? 0)
  | VStr s => negb (String.eqb s "")
  | _ => true
  end.

(** [a || b] and [a && b] *)
Definition js_or (a b : value) : value := if truthy a then a else b.
Definition js_and (a b : value) : value := if truthy a then b else a.

(** [v === s] for a string [s]: only a string value is strictly equal to it *)
Definition strict_eq_string (v : value) (s : string) : bool :=
  match v with VStr s' => String.eqb s' s | _ => false end.

(** [Object.prototype.toString.call(v) === '[object Function]'] *)
Definition is_function (v : value) : bool :=
  match v with VFun _ => true | _ => false end.

(** ** Decimal numerals *)

Definition digit_char (d : Z) : ascii :=
  ascii_of_nat (48 + Z.to_nat d).

(** The [w] low decimal digits of [n], most significant first *)
Fixpoint pad_digits (w : nat) (n : Z) : string :=
  match w with
  | O => ""
  | S w' => pad_digits w' (n / 10) +:+ String (digit_char (n mod 10)) ""
  end.

(** Number of decimal digits of a non-negative integer (at least one) *)
Fixpoint digits_fuel (fuel : nat) (n : Z) : nat :=
  match fuel with
  | O => 1
  | S f => if n <? 10 then 1%nat else S (digits_fuel f (n / 10))
  end.

Definition num_digits (n : Z) : nat := digits_fuel (Z.to_nat n) n.

(** Number.prototype.toString on an integer *)
Definition string_of_Z (n : Z) : string :=
  if n <? 0 then "-" +:+ pad_digits (num_digits (- n)) (- n)
  else pad_digits (num_digits n) n.

(** ** Objects as ordered property lists *)

Fixpoint prop_get (k : string) (ps : props) : option value :=
  match ps with
  | [] => None
  | (k', v) :: ps' => if String.eqb k k' then Some v else prop_get k ps'
  end.

Definition prop_mem (k : string) (ps : props) : bool :=
  match prop_get k ps with Some _ => true | None => false end.

Fixpoint prop_replace (k : string) (v : value) (ps : props) : props :=
  match ps with
  | [] => []
  | (k', v') :: ps' =>
      if String.eqb k k' then (k', v) :: ps' else (k', v') :: prop_replace k v ps'
  end.

Definition is_digit (c : ascii) : bool :=
  let n := nat_of_ascii c in ((48 <=? n)%nat && (n <=? 57)%nat)%bool.

Fixpoint digits_value (acc : Z) (s : string) : option Z :=
  match s with
  | EmptyString => Some acc
  | String c s' =>
      if is_digit c
      then digits_value (10 * acc + Z.of_nat (nat_of_ascii c) - 48) s'
      else None
  end.

(** A property key is an array index when it is the canonical numeral of
    an integer below 2^32 - 1; such keys are enumerated first. *)
Definition array_index (k : string) : option Z :=
  match k with
  | EmptyString => None
  | String c rest =>
      if (Ascii.eqb c "0" && negb (String.eqb rest ""))%bool then None
      else match digits_value 0 k with
           | Some n => if n <? 4294967295 then Some n else None
           | None => None
           end
  end.

(** Creation of an array-index property: it goes before the first key
    that is a larger index or not an index. *)
Fixpoint prop_insert_index (n : Z) (k : string) (v : value) (ps : props) : props :=
  match ps with
  | [] => [(k, v)]
  | (k', v') :: ps' =>
      match array_index k' with
      | Some n' =>
          if n <? n' then (k, v) :: ps else (k', v') :: prop_insert_index n k v ps'
      | None => (k, v) :: ps
      end
  end.

(** [obj[k] = v]: an existing property keeps its place; a new one is
    enumerated after the older ones (array indices first, in numeric
    order). *)
Definition prop_set (k : string) (v : value) (ps : props) : props :=
  if prop_mem k ps then prop_replace k v ps
  else match array_index k with
       | Some n => prop_insert_index n k v ps
       | None => ps ++ [(k, v)]
       end.

(** [Object.keys(obj)] *)
Definition Object_keys (ps : props) : list string := map fst ps.

Fixpoint index_props (i : Z) (xs : list value) : props :=
  match xs with
  | [] => []
  | x :: xs' => (string_of_Z i, x) :: index_props (i + 1) xs'
  end.

Fixpoint chars_of (s : string) : list value :=
  match s with
  | EmptyString => []
  | String c s' => VStr (String c "") :: chars_of s'
  end.

(** The properties [for (k in v)] visits, with their values.  Plain
    objects have their own properties, arrays and strings their indices;
    dates, errors, functions and primitives have none. *)
Definition enumerable_props (v : value) : props :=
  match v with
  | VObj ps => ps
  | VArr xs => index_props 0 xs
  | VStr s => index_props 0 (chars_of s)
  | _ => []
  end.

(** [v[k]] *)
Definition get (v : value) (k : string) : value :=
  match v with
  | VErr name message =>
      if String.eqb k "name" then VStr name
      else if String.eqb k "message" then VStr message
      else VUndefined
  | _ => match prop_get k (enumerable_props v) with
         | Some x => x
         | None => VUndefined
         end
  end.

(** ** The platform: Node built-ins and npm dependencies *)

(** The chalk styles the formatters use *)
Inductive style := grey | blue | yellow | red | red_bold | gray.

Fixpoint no_percent (s : string) : bool :=
  match s with
  | EmptyString => true
  | String c s' => (negb (Ascii.eqb c "%") && no_percent s')%bool
  end.

(** Built-ins of the language whose result depends on the host *)
Class Host := {
  (** [String.prototype.toUpperCase] *)
  toUpperCase : string -> string;
  (** [Date.prototype.toString], in the time zone of the host *)
  Date_toString : Z -> string
}.

(** [util], [chalk] and [serr] *)
Class Runtime := {
  (** [util.inspect(v)] *)
  util_inspect : value -> string;
  (** [util.format.apply(global, args)] *)
  util_format : list value -> string;
  (** [chalk.<style>(text)] *)
  chalk : style -> string -> string;
  (** [serializeErr(err).toString(withStack)] *)
  serr_toString : value -> bool -> string;
  (** [serializeErr(err).toObject(withStack)], a plain object *)
  serr_toObject : value -> bool -> props;
  (** a lone string without format specifiers is returned as it is *)
  util_format_plain : forall s, no_percent s = true -> util_format [VStr s] = s;
  (** a lone [undefined] is inspected *)
  util_format_undefined : util_format [VUndefined] = "undefined"
}.

Section Logops.
Context `{HT : Host} `{RT : Runtime}.

(** [Error.prototype.toString] *)
Definition Error_toString (name message : string) : string :=
  if String.eqb name "" then message
  else if String.eqb message "" then name
  else name +:+ ": " +:+ message.

(** ToString, as in ['' + v] and [key + '=' + v].  Plain objects are
    taken without a [toString] of their own. *)
Fixpoint to_string (v : value) : string :=
  match v with
  | VUndefined => "undefined"
  | VNull => "null"
  | VBool b => if b then "true" else "false"
  | VNum n => string_of_Z n
  | VStr s => s
  | VArr xs =>
      let elem x := match x with VUndefined | VNull => "" | _ => to_string x end in
      (fix join (l : list value) : string :=
         match l with
         | [] => ""
         | [x] => elem x
         | x :: l' => elem x +:+ "," +:+ join l'
         end) xs
  | VObj _ => "[object Object]"
  | VDate t => Date_toString t
  | VErr name message => Error_toString name message
  | VFun src => src
  | VCircular => "[object Object]"
  end.

(** [a + b] where one side is a string *)
Definition string_plus (a b : value) : value := VStr (to_string a +:+ to_string b).

(** ** lib/logops.js: [merge] *)

(** One loop [for (attrname in obj) { res[attrname] = obj[attrname]; }] *)
Definition copy_props (obj : value) (res : props) : props :=
  fold_left (fun res attrname => prop_set attrname (get obj attrname) res)
            (Object_keys (enumerable_props obj)) res.

Definition merge (obj1 obj2 : value) : value :=
  let res := [] in
  let res := copy_props obj1 res in
  let res := copy_props obj2 res in
  VObj res.

(** ** lib/logops.js: the body of [logWrap(level)] up to the call of the formatter *)

Record log_record := {
  rec_context : value;
  rec_message : value;
  rec_args : list value;
  rec_err : value
}.

Inductive call_shape :=
| ErrorLed      (* log.<level>(err, ...) *)
| MessageLed    (* log.<level>(msg, ...) *)
| ContextLed.   (* log.<level>(fields, msg, ...) *)

(** [arguments[i]] *)
Definition arg (arguments : list value) (i : nat) : value := nth i arguments VUndefined.

(** [Array.prototype.slice.call(xs, n)] *)
Definition slice (xs : list value) (n : nat) : list value := skipn n xs.

(** Which branch of the [if] / [else if] / [else] chain a call takes *)
Definition classify (arguments : list value) : call_shape :=
  let a0 := arg arguments 0 in
  if instanceof_Error a0 then ErrorLed
  else if (loose_eq_null a0
           || (negb (type_tag_eqb (typeof a0) TObject) && strict_ne_null a0)
           || Array_isArray a0)%bool
  then MessageLed
  else ContextLed.

(** [ambient] is the value of the one call [API.getContext()] each branch makes *)
Definition resolve (ambient : value) (arguments : list value) : log_record :=
  match classify arguments with
  | ErrorLed =>
      let context := ambient in
      let args := slice arguments 1 in
      if (length args =? 0)%nat then
        let err := arg arguments 0 in
        let message := string_plus (string_plus (get err "name") (VStr ": ")) (get err "message") in
        {| rec_context := context; rec_message := message; rec_args := args; rec_err := err |}
      else
        let err := arg arguments 0 in
        let message := arg arguments 1 in
        let args := slice args 1 in
        {| rec_context := context; rec_message := message; rec_args := args; rec_err := err |}
  | MessageLed =>
      let context := ambient in
      let message := arg arguments 0 in
      let args := slice arguments 1 in
      {| rec_context := context; rec_message := message; rec_args := args; rec_err := VUndefined |}
  | ContextLed =>
      let context := merge ambient (arg arguments 0) in
      let message := arg arguments 1 in
      let args := slice arguments 2 in
      {| rec_context := context; rec_message := message; rec_args := args; rec_err := VUndefined |}
  end.


(** ** Strings: the operations of [String.prototype] the formatters use *)

Definition LF : string := String (ascii_of_nat 10) "".
Definition CR : string := String (ascii_of_nat 13) "".

(** [s.substr(n)] *)
Fixpoint substr (s : string) (n : nat) : string :=
  match n, s with
  | O, _ => s
  | S n', String _ s' => substr s' n'
  | S _, EmptyString => ""
  end.

(** [s.split('\n')] *)
Fixpoint split_lines (s : string) : list string :=
  match s with
  | EmptyString => [""]
  | String c s' =>
      if Ascii.eqb c (ascii_of_nat 10) then "" :: split_lines s'
      else match split_lines s' with
           | [] => [String c ""]
           | l :: ls => String c l :: ls
           end
  end.

(** [parts.join(sep)] *)
Fixpoint join (sep : string) (parts : list string) : string :=
  match parts with
  | [] => ""
  | [p] => p
  | p :: ps => p +:+ sep +:+ join sep ps
  end.

(** [str.replace(new RegExp('\r?\n','g'), '\n      ')] *)
Fixpoint reindent (s : string) : string :=
  match s with
  | EmptyString => ""
  | String c s' =>
      if Ascii.eqb c (ascii_of_nat 10) then LF +:+ "      " +:+ reindent s'
      else if Ascii.eqb c (ascii_of_nat 13) then
        match s' with
        | String c' s'' =>
            if Ascii.eqb c' (ascii_of_nat 10) then LF +:+ "      " +:+ reindent s''
            else String c (reindent s')
        | EmptyString => String c ""
        end
      else String c (reindent s')
  end.

(** [xs.indexOf(x) > -1] on an array of strings *)
Definition includes (xs : list string) (x : string) : bool :=
  existsb (String.eqb x) xs.

(** ** Dates: [Date.prototype.toISOString] *)

Definition year_string (y : Z) : string :=
  if ((0 <=? y) && (y <=? 9999))%bool then pad_digits 4 y
  else (if y <? 0 then "-" else "+") +:+ pad_digits 6 (Z.abs y).

(** Year, month and day of the day [days] after 1970-01-01 *)
Definition civil_of_days (days : Z) : Z * Z * Z :=
  let z := days + 719468 in
  let era := z / 146097 in
  let doe := z mod 146097 in
  let yoe := (doe - doe / 1460 + doe / 36524 - doe / 146096) / 365 in
  let doy := doe - (365 * yoe + yoe / 4 - yoe / 100) in
  let mp := (5 * doy + 2) / 153 in
  let d := doy - (153 * mp + 2) / 5 + 1 in
  let m := if mp <? 10 then mp + 3 else mp - 9 in
  let y := yoe + era * 400 + (if m <=? 2 then 1 else 0) in
  (y, m, d).

Definition time_of_day (ms : Z) : string :=
  pad_digits 2 (ms / 3600000) +:+ ":" +:+ pad_digits 2 (ms / 60000 mod 60) +:+ ":"
  +:+ pad_digits 2 (ms / 1000 mod 60).

Definition toISOString (t : Z) : string :=
  let '(y, m, d) := civil_of_days (t / 86400000) in
  let ms := t mod 86400000 in
  year_string y +:+ "-" +:+ pad_digits 2 m +:+ "-" +:+ pad_digits 2 d +:+ "T"
  +:+ time_of_day ms +:+ "." +:+ pad_digits 3 (ms mod 1000) +:+ "Z".

(** ** JSON: [JSON.stringify] *)

Inductive json : Type :=
| JNull
| JBool (b : bool)
| JNum (n : Z)
| JStr (s : string)
| JArr (elems : list json)
| JObj (fields : list (string * json)).

Definition hex_char (d : nat) : ascii :=
  if (d <? 10)%nat then ascii_of_nat (48 + d) else ascii_of_nat (87 + d).

Definition DQUOTE : ascii := ascii_of_nat 34.
Definition BACKSLASH : ascii := ascii_of_nat 92.

(** QuoteJSONString: one character *)
Definition escape_char (c : ascii) : string :=
  let n := nat_of_ascii c in
  if (n =? 34)%nat then String BACKSLASH (String DQUOTE EmptyString)
  else if (n =? 92)%nat then String BACKSLASH (String BACKSLASH EmptyString)
  else if (n =? 8)%nat then String BACKSLASH "b"
  else if (n =? 12)%nat then String BACKSLASH "f"
  else if (n =? 10)%nat then String BACKSLASH "n"
  else if (n =? 13)%nat then String BACKSLASH "r"
  else if (n =? 9)%nat then String BACKSLASH "t"
  else if (n <? 32)%nat
       then String BACKSLASH ("u00" +:+ String (hex_char (n / 16)) (String (hex_char (n mod 16)) EmptyString))
  else String c EmptyString.

Fixpoint escape (s : string) : string :=
  match s with
  | EmptyString => EmptyString
  | String c s' => escape_char c +:+ escape s'
  end.

Definition quote (s : string) : string :=
  String DQUOTE (escape s +:+ String DQUOTE EmptyString).

(** The text of a JSON document, without white space, as [JSON.stringify] writes it *)
Fixpoint render (j : json) : string :=
  match j with
  | JNull => "null"
  | JBool b => if b then "true" else "false"
  | JNum n => string_of_Z n
  | JStr s => quote s
  | JArr l =>
      "[" +:+ (fix elems (l : list json) : string :=
                 match l with
                 | [] => EmptyString
                 | [x] => render x
                 | x :: l' => render x +:+ "," +:+ elems l'
                 end) l +:+ "]"
  | JObj fs =>
      "{" +:+ (fix fields (fs : list (string * json)) : string :=
                 match fs with
                 | [] => EmptyString
                 | [(k, x)] => quote k +:+ ":" +:+ render x
                 | (k, x) :: fs' => quote k +:+ ":" +:+ render x +:+ "," +:+ fields fs'
                 end) fs +:+ "}"
  end.

(** SerializeJSONProperty: [None] is [undefined] (the property is left
    out of an object and written [null] in an array).  A date goes
    through its [toJSON]; an error has no enumerable property; a
    reference back to an enclosing object makes the structure circular. *)
Fixpoint to_json (v : value) : result (option json) :=
  match v with
  | VUndefined | VFun _ => Ok None
  | VNull => Ok (Some JNull)
  | VBool b => Ok (Some (JBool b))
  | VNum n => Ok (Some (JNum n))
  | VStr s => Ok (Some (JStr s))
  | VDate t => Ok (Some (JStr (toISOString t)))
  | VErr _ _ => Ok (Some (JObj []))
  | VCircular => Throw (TypeError "Converting circular structure to JSON")
  | VArr xs =>
      let! js := (fix elems (l : list value) : result (list json) :=
                    match l with
                    | [] => Ok []
                    | x :: l' =>
                        let! j := to_json x in
                        let! js := elems l' in
                        Ok (match j with Some j => j | None => JNull end :: js)
                    end) xs in
      Ok (Some (JArr js))
  | VObj ps =>
      let! fs := (fix fields (l : props) : result (list (string * json)) :=
                    match l with
                    | [] => Ok []
                    | (k, x) :: l' =>
                        let! j := to_json x in
                        let! fs := fields l' in
                        Ok (match j with Some j => (k, j) :: fs | None => fs end)
                    end) ps in
      Ok (Some (JObj fs))
  end.

(** [JSON.stringify(v)]: a string, [undefined], or a TypeError *)
Definition JSON_stringify (v : value) : result value :=
  let! j := to_json v in
  Ok (match j with Some j => VStr (render j) | None => VUndefined end).

(** ** The safe-json-stringify package *)

(** [ensureProperties]: a copy of the structure in which a circular
    reference is the string [[Circular]] and an object with a [toJSON]
    is what that returns. *)
Fixpoint ensureProperties (v : value) : value :=
  match v with
  | VCircular => VStr "[Circular]"
  | VDate t => VStr (toISOString t)
  | VErr _ _ => VObj []
  | VArr xs => VArr (map ensureProperties xs)
  | VObj ps => VObj (map (fun kv => (fst kv, ensureProperties (snd kv))) ps)
  | _ => v
  end.

Definition safeStringify (v : value) : result value :=
  JSON_stringify (ensureProperties v).

(** ** lib/formatters.js *)

(** The state the formatters read: the clock and the module's settings *)
Record fmt_env := {
  now : Z;                        (* new Date() *)
  notAvailable : value;           (* var notAvailable *)
  stacktracesWith : list string;  (* API.stacktracesWith *)
  omit : list string              (* formatDevTrace.omit *)
}.

Definition DEFAULT_NOT_AVAILABLE : value := VStr "n/a".

Definition default_env (clock : Z) : fmt_env :=
  {| now := clock;
     notAvailable := DEFAULT_NOT_AVAILABLE;
     stacktracesWith := ["ERROR"; "FATAL"];
     omit := [] |}.

Definition setNotAvailable (na : value) (env : fmt_env) : fmt_env :=
  {| now := now env; notAvailable := na;
     stacktracesWith := stacktracesWith env; omit := omit env |}.

Definition formatter : Type :=
  fmt_env -> string -> value -> value -> list value -> value -> result value.

(** [colorize(color, str)] *)
Definition colorize (color : string -> string) (str : string) : string :=
  join LF (map (fun part => color part) (split_lines str)).

(** [_.omit(context, names)] *)
Definition lodash_omit (context : value) (names : list string) : props :=
  filter (fun kv => negb (includes names (fst kv))) (enumerable_props context).

(** The [switch (level)] of [formatDevTrace]; without a matching case
    [str] stays [undefined] *)
Definition level_token (level : string) : value :=
  if String.eqb level "DEBUG" then VStr (chalk grey level)
  else if String.eqb level "INFO" then VStr (chalk blue level +:+ " ")
  else if String.eqb level "WARN" then VStr (chalk yellow level +:+ " ")
  else if String.eqb level "ERROR" then VStr (chalk red level)
  else if String.eqb level "FATAL" then VStr (chalk red_bold level)
  else VUndefined.

Definition formatDevTrace : formatter :=
  fun env level context message args err =>
  let mainMessage := util_format ([message] ++ args) in
  let printStack := includes (stacktracesWith env) level in
  let errCommomMessage :=
    if truthy err
    then string_plus (string_plus (get err "name") (VStr ": ")) (get err "message")
    else err in
  let isErrorLoggingWithoutMessage := strict_eq_string errCommomMessage mainMessage in
  let str := to_string (level_token level) in
  let str := str +:+ " " +:+ mainMessage in
  let str :=
    if isErrorLoggingWithoutMessage then
      str +:+ colorize (chalk gray) (substr (serr_toString err printStack) (String.length mainMessage))
    else if truthy err then
      str +:+ LF +:+ colorize (chalk gray) (serr_toString err printStack)
    else str in
  let localContext := lodash_omit context (omit env) in
  let str :=
    str +:+ (if (0 <? length (Object_keys localContext))%nat
             then " " +:+ colorize (chalk gray) (util_inspect (VObj localContext))
             else EmptyString) in
  Ok (VStr (reindent str)).

(** [formatTrace]: the object [recontext] once the message is stored in it *)
Definition formatTrace_recontext (env : fmt_env) (level : string)
    (context message : value) : props :=
  let recontext :=
    [ ("time", VStr (toISOString (now env)));
      ("lvl", VStr level);
      ("corr", js_or (get context "corr") (notAvailable env));
      ("trans", js_or (get context "trans") (notAvailable env));
      ("op", js_or (get context "op") (notAvailable env)) ] in
  let keys :=
    filter (fun key => negb (truthy (get context key) && is_function (get context key)))
           (Object_keys (enumerable_props context)) in
  let recontext :=
    fold_left (fun recontext key => prop_set key (js_or (get context key) (notAvailable env)) recontext)
              keys recontext in
  if (instanceof_Date message || instanceof_Error message)%bool
  then prop_set "msg" (VStr (util_format [message])) recontext
  else prop_set "msg" message recontext.

(** [formatTrace]: the string [str] *)
Definition formatTrace_str (recontext : props) : string :=
  join " | " (map (fun key => key +:+ "=" +:+ to_string (get (VObj recontext) key))
                  (Object_keys recontext)).

(** [formatTrace]: the array [args] when it is handed to [util.format] *)
Definition formatTrace_args (env : fmt_env) (level : string)
    (context message : value) (args : list value) (err : value) : list value :=
  let str := formatTrace_str (formatTrace_recontext env level context message) in
  let args := VStr str :: args in                               (* args.unshift(str) *)
  if (truthy err && negb (strict_eq_string message (to_string err)))%bool
  then args ++ [err]                                            (* args.push(err) *)
  else args.

Definition formatTrace : formatter :=
  fun env level context message args err =>
  if loose_eq_null context
  then Throw (TypeError "Cannot read property 'corr' of undefined")
  else Ok (VStr (util_format (formatTrace_args env level context message args err))).

(** The line of the delimited formatter at the epoch, for a message without [%] *)
Definition epoch_line (msg : string) : string :=
  "time=1970-01-01T00:00:00.000Z | lvl=INFO | corr=n/a | trans=n/a | op=n/a | msg=" +:+ msg.

Definition formatJsonTrace_stringify (obj : value) : result value :=
  try_catch (JSON_stringify obj) (fun err => safeStringify obj).

Definition formatJsonTrace_toObject (env : fmt_env) (level : string)
    (context message : value) (args : list value) (err : value) : value :=
  let log := [] in
  let log := copy_props context log in
  let log := prop_set "time" (VDate (now env)) log in
  let log := prop_set "lvl" (VStr level) log in
  let log := prop_set "err"
               (if truthy err
                then VObj (serr_toObject err (includes (stacktracesWith env) level))
                else err) log in
  let log := prop_set "msg" (VStr (util_format ([message] ++ args))) log in
  VObj log.

Definition formatJsonTrace : formatter :=
  fun env level context message args err =>
  formatJsonTrace_stringify (formatJsonTrace_toObject env level context message args err).

(** The table [formatters]: its entries that are formatters *)
Definition formatters (name : string) : option formatter :=
  if String.eqb name "dev" then Some formatDevTrace
  else if String.eqb name "json" then Some formatJsonTrace
  else if String.eqb name "pipe" then Some formatTrace
  else None.

(** ** JSON: decoding

    The decoder reads documents without insignificant white space, which
    is how [JSON.stringify] writes them.  An escape [\uXXXX] is decoded
    when it names an ASCII character. *)

Definition hex_value (c : ascii) : option nat :=
  let n := nat_of_ascii c in
  if ((48 <=? n) && (n <=? 57))%nat then Some (n - 48)%nat
  else if ((97 <=? n) && (n <=? 102))%nat then Some (n - 87)%nat
  else if ((65 <=? n) && (n <=? 70))%nat then Some (n - 55)%nat
  else None.

Definition hex4 (h1 h2 h3 h4 : ascii) : option nat :=
  a ← hex_value h1; b ← hex_value h2; c ← hex_value h3; d ← hex_value h4;
  Some (((a * 16 + b) * 16 + c) * 16 + d)%nat.

(** The character a two-character escape stands for *)
Definition unescape_char (e : ascii) : option ascii :=
  let n := nat_of_ascii e in
  if (n =? 34)%nat then Some DQUOTE
  else if (n =? 92)%nat then Some BACKSLASH
  else if (n =? 47)%nat then Some (ascii_of_nat 47)
  else if (n =? 98)%nat then Some (ascii_of_nat 8)
  else if (n =? 102)%nat then Some (ascii_of_nat 12)
  else if (n =? 110)%nat then Some (ascii_of_nat 10)
  else if (n =? 114)%nat then Some (ascii_of_nat 13)
  else if (n =? 116)%nat then Some (ascii_of_nat 9)
  else None.

(** The characters of a string literal after its opening quote, and what follows it *)
Fixpoint parse_chars (s : string) : option (string * string) :=
  match s with
  | EmptyString => None
  | String c s1 =>
      if Ascii.eqb c DQUOTE then Some (EmptyString, s1)
      else if Ascii.eqb c BACKSLASH then
        match s1 with
        | EmptyString => None
        | String e s2 =>
            if Ascii.eqb e "u" then
              match s2 with
              | String h1 (String h2 (String h3 (String h4 s3))) =>
                  code ← hex4 h1 h2 h3 h4;
                  if (code <? 128)%nat
                  then '(str, r) ← parse_chars s3; Some (String (ascii_of_nat code) str, r)
                  else None
              | _ => None
              end
            else
              ch ← unescape_char e;
              '(str, r) ← parse_chars s2; Some (String ch str, r)
        end
      else if (nat_of_ascii c <? 32)%nat then None
      else '(str, r) ← parse_chars s1; Some (String c str, r)
  end.

Fixpoint parse_digits (acc : Z) (s : string) : Z * string :=
  match s with
  | EmptyString => (acc, s)
  | String c s' =>
      if is_digit c
      then parse_digits (10 * acc + (Z.of_nat (nat_of_ascii c) - 48)) s'
      else (acc, s)
  end.

Definition parse_number (s : string) : option (Z * string) :=
  match s with
  | EmptyString => None
  | String c s' =>
      if Ascii.eqb c "-" then
        match s' with
        | String d _ =>
            if is_digit d then let (n, r) := parse_digits 0 s' in Some (- n, r) else None
        | EmptyString => None
        end
      else if is_digit c then Some (parse_digits 0 s)
      else None
  end.

(** [s] without the prefix [p], when it starts with it *)
Fixpoint strip_prefix (p s : string) : option string :=
  match p, s with
  | EmptyString, _ => Some s
  | String a p', String b s' => if Ascii.eqb a b then strip_prefix p' s' else None
  | String _ _, EmptyString => None
  end.

Fixpoint parse_value (fuel : nat) (s : string) : option (json * string) :=
  match fuel with
  | O => None
  | S n =>
      match s with
      | EmptyString => None
      | String c rest =>
          if Ascii.eqb c "n" then r ← strip_prefix "ull" rest; Some (JNull, r)
          else if Ascii.eqb c "t" then r ← strip_prefix "rue" rest; Some (JBool true, r)
          else if Ascii.eqb c "f" then r ← strip_prefix "alse" rest; Some (JBool false, r)
          else if Ascii.eqb c DQUOTE then '(str, r) ← parse_chars rest; Some (JStr str, r)
          else if Ascii.eqb c "[" then
            match rest with
            | String c' r =>
                if Ascii.eqb c' "]" then Some (JArr [], r)
                else '(l, r') ← parse_elems n rest; Some (JArr l, r')
            | EmptyString => None
            end
          else if Ascii.eqb c "{" then
            match rest with
            | String c' r =>
                if Ascii.eqb c' "}" then Some (JObj [], r)
                else '(fs, r') ← parse_fields n rest; Some (JObj fs, r')
            | EmptyString => None
            end
          else '(z, r) ← parse_number s; Some (JNum z, r)
      end
  end
with parse_elems (fuel : nat) (s : string) : option (list json * string) :=
  match fuel with
  | O => None
  | S n =>
      '(x, r) ← parse_value n s;
      match r with
      | String c r' =>
          if Ascii.eqb c "," then '(xs, r'') ← parse_elems n r'; Some (x :: xs, r'')
          else if Ascii.eqb c "]" then Some ([x], r')
          else None
      | EmptyString => None
      end
  end
with parse_fields (fuel : nat) (s : string) : option (list (string * json) * string) :=
  match fuel with
  | O => None
  | S n =>
      match s with
      | String q s1 =>
          if Ascii.eqb q DQUOTE then
            '(k, s2) ← parse_chars s1;
            match s2 with
            | String colon s3 =>
                if Ascii.eqb colon ":" then
                  '(x, r) ← parse_value n s3;
                  match r with
                  | String c r' =>
                      if Ascii.eqb c "," then '(fs, r'') ← parse_fields n r'; Some ((k, x) :: fs, r'')
                      else if Ascii.eqb c "}" then Some ([(k, x)], r')
                      else None
                  | EmptyString => None
                  end
                else None
            | EmptyString => None
            end
          else None
      | EmptyString => None
      end
  end.

(** [JSON.parse(text)] *)
Definition JSON_parse (text : string) : option json :=
  match parse_value (S (String.length text)) text with
  | Some (j, EmptyString) => Some j
  | _ => None
  end.

(** The member [k] of a decoded object: of several members with one
    name, [JSON.parse] keeps the last. *)
Fixpoint json_field (k : string) (fields : list (string * json)) : option json :=
  match fields with
  | [] => None
  | (k', j) :: fs =>
      match json_field k fs with
      | Some j' => Some j'
      | None => if String.eqb k k' then Some j else None
      end
  end.

Definition json_get (j : json) (k : string) : option json :=
  match j with
  | JObj fields => json_field k fields
  | _ => None
  end.

(** The members of an array and of an object, as [render] writes them *)
Definition render_elems : list json -> string :=
  fix elems (l : list json) : string :=
    match l with
    | [] => EmptyString
    | [x] => render x
    | x :: l' => render x +:+ "," +:+ elems l'
    end.

Definition render_fields : list (string * json) -> string :=
  fix fields (fs : list (string * json)) : string :=
    match fs with
    | [] => EmptyString
    | [(k, x)] => quote k +:+ ":" +:+ render x
    | (k, x) :: fs' => quote k +:+ ":" +:+ render x +:+ "," +:+ fields fs'
    end.

(** The number of nodes and members of a document: fuel enough to decode it *)
Fixpoint json_size (j : json) : nat :=
  match j with
  | JArr l =>
      S ((fix elems (l : list json) : nat :=
            match l with
            | [] => O
            | x :: l' => S (json_size x + elems l')
            end) l)
  | JObj fs =>
      S ((fix fields (fs : list (string * json)) : nat :=
            match fs with
            | [] => O
            | (_, x) :: fs' => S (json_size x + fields fs')
            end) fs)
  | _ => 1%nat
  end.

Definition elems_size : list json -> nat :=
  fix elems (l : list json) : nat :=
    match l with
    | [] => O
    | x :: l' => S (json_size x + elems l')
    end.

Definition fields_size : list (string * json) -> nat :=
  fix fields (fs : list (string * json)) : nat :=
    match fs with
    | [] => O
    | (_, x) :: fs' => S (json_size x + fields fs')
    end.

(** A text a numeral can stand in front of *)
Definition no_digit_head (s : string) : Prop :=
  match s with
  | EmptyString => True
  | String c _ => is_digit c = false
  end.


(** The members of an object and of an array, as [to_json] converts them *)
Definition to_json_fields : props -> result (list (string * json)) :=
  fix fields (l : props) : result (list (string * json)) :=
    match l with
    | [] => Ok []
    | (k, x) :: l' =>
        let! j := to_json x in
        let! fs := fields l' in
        Ok (match j with Some j => (k, j) :: fs | None => fs end)
    end.

Definition to_json_elems : list value -> result (list json) :=
  fix elems (l : list value) : result (list json) :=
    match l with
    | [] => Ok []
    | x :: l' =>
        let! j := to_json x in
        let! js := elems l' in
        Ok (match j with Some j => j | None => JNull end :: js)
    end.

(** A structure is circular when it holds a reference back to an enclosing object *)
Fixpoint has_circular (v : value) : bool :=
  match v with
  | VCircular => true
  | VArr xs => existsb has_circular xs
  | VObj ps => existsb (fun kv => has_circular (snd kv)) ps
  | _ => false
  end.

(** ** lib/logops.js: logger instances *)

Definition levels : list string := ["DEBUG"; "INFO"; "WARN"; "ERROR"; "FATAL"].
Definition DEFAULT_LEVEL : string := "INFO".

(** [xs.indexOf(x)], which is -1 when [x] is not an element *)
Fixpoint indexOf_from (i : Z) (xs : list string) (x : string) : Z :=
  match xs with
  | [] => -1
  | y :: ys => if String.eqb y x then i else indexOf_from (i + 1) ys x
  end.

Definition indexOf (xs : list string) (x : string) : Z := indexOf_from 0 xs x.

(** [String.prototype.toLowerCase] on the letters A-Z *)
Definition lower_char (c : ascii) : ascii :=
  let n := nat_of_ascii c in
  if ((65 <=? n) && (n <=? 90))%nat then ascii_of_nat (n + 32) else c.

Fixpoint toLowerCase (s : string) : string :=
  match s with
  | EmptyString => EmptyString
  | String c s' => String (lower_char c) (toLowerCase s')
  end.

(** A stream object, by identity *)
Definition sink : Type := nat.
Definition stdout : sink := 0%nat.

(** The functions a context getter can be *)
Inductive getter : Type :=
| noop_getter                                      (* function noop() {} *)
| user_getter (returns : value)                    (* a function of the application *)
| child_getter (parent : nat) (localContext : value).
                                   (* () => merge(API.getContext(), localContext), API the parent's *)

(** The functions [setLevel] binds to [API.debug] ... [API.fatal] *)
Inductive level_fn : Type :=
| noop                       (* function noop() {} *)
| logWrap (level : string).  (* the closure logWrap(level) returns *)

(** One instance: the objects [opts] and [API] its closures share *)
Record logger := {
  opts_level : value;                       (* opts.level *)
  API_stream : sink;                        (* API.stream *)
  API_format : formatter;                   (* API.format *)
  API_getContext : getter;                  (* API.getContext *)
  API_methods : list (string * level_fn)    (* API.debug, API.info, ... *)
}.

Fixpoint method_get (name : string) (ms : list (string * level_fn)) : option level_fn :=
  match ms with
  | [] => None
  | (name', fn) :: ms' => if String.eqb name name' then Some fn else method_get name ms'
  end.

Fixpoint method_set (name : string) (fn : level_fn) (ms : list (string * level_fn))
    : list (string * level_fn) :=
  match ms with
  | [] => [(name, fn)]
  | (name', fn') :: ms' =>
      if String.eqb name name' then (name', fn) :: ms' else (name', fn') :: method_set name fn ms'
  end.

(** [API[name] = fn] *)
Definition set_method (name : string) (fn : level_fn) (API : logger) : logger :=
  {| opts_level := opts_level API; API_stream := API_stream API;
     API_format := API_format API; API_getContext := API_getContext API;
     API_methods := method_set name fn (API_methods API) |}.

Definition set_opts_level (level : value) (API : logger) : logger :=
  {| opts_level := level; API_stream := API_stream API;
     API_format := API_format API; API_getContext := API_getContext API;
     API_methods := API_methods API |}.

(** [setLevel(level)].  [opts.level] is assigned first; a [level] that
    is not a string has no [toUpperCase] to call. *)
Definition setLevel (level : value) (API : logger) : logger * result unit :=
  let API := set_opts_level level API in
  match level with
  | VStr s =>
      let logLevelIndex := indexOf levels (toUpperCase s) in
      (fold_left (fun API logLevel =>
                    let fn := if logLevelIndex <=? indexOf levels logLevel
                              then logWrap logLevel
                              else noop in
                    set_method (toLowerCase logLevel) fn API)
                 levels API,
       Ok tt)
  | _ => (API, Throw (TypeError "opts.level.toUpperCase is not a function"))
  end.

(** The function [setLevel] binds for a severity, given the index of the threshold *)
Definition bound_fn (logLevelIndex : Z) (logLevel : string) : level_fn :=
  if logLevelIndex <=? indexOf levels logLevel then logWrap logLevel else noop.

Definition getLevel (API : logger) : value := opts_level API.

Definition setStream (stream : sink) (API : logger) : logger * result unit :=
  ({| opts_level := opts_level API; API_stream := stream;
      API_format := API_format API; API_getContext := API_getContext API;
      API_methods := API_methods API |}, Ok tt).

Definition setFormat (format : formatter) (API : logger) : logger * result unit :=
  ({| opts_level := opts_level API; API_stream := API_stream API;
      API_format := format; API_getContext := API_getContext API;
      API_methods := API_methods API |}, Ok tt).

Definition setContextGetter (fn : getter) (API : logger) : logger * result unit :=
  ({| opts_level := opts_level API; API_stream := API_stream API;
      API_format := API_format API; API_getContext := fn;
      API_methods := API_methods API |}, Ok tt).

(** The argument of [logops]: a property that is absent is [None] *)
Record options := {
  opt_level : option value;
  opt_format : option formatter;
  opt_getContext : option getter;
  opt_stream : option sink
}.

Definition no_options : options :=
  {| opt_level := None; opt_format := None; opt_getContext := None; opt_stream := None |}.

(** [process.env] *)
Record process_env := {
  LOGOPS_LEVEL : option string;
  LOGOPS_FORMAT : option string;
  NODE_ENV : option string
}.

Definition default_level (penv : process_env) : value :=
  match LOGOPS_LEVEL penv with
  | Some s => js_or (VStr s) (VStr DEFAULT_LEVEL)
  | None => VStr DEFAULT_LEVEL
  end.

Definition default_format (penv : process_env) : formatter :=
  match (name ← LOGOPS_FORMAT penv; formatters name) with
  | Some f => f
  | None =>
      match NODE_ENV penv with
      | Some mode => if String.eqb mode "development" then formatDevTrace else formatJsonTrace
      | None => formatJsonTrace
      end
  end.

(** [logops(options)]: [opts] is the defaults overridden by the
    properties of [options]; the instance is returned once
    [setLevel(opts.level)] has bound its level functions. *)
Definition logops (penv : process_env) (options : options) : result logger :=
  let API :=
    {| opts_level := default (default_level penv) (opt_level options);
       API_stream := default stdout (opt_stream options);
       API_format := default (default_format penv) (opt_format options);
       API_getContext := default noop_getter (opt_getContext options);
       API_methods := [] |} in
  let (API, r) := setLevel (opts_level API) API in
  let! _ := r in Ok API.

(** The instances that exist, by id *)
Abbreviation store := (list logger).

(** An operation of instance [self] *)
Definition on_logger {A} (st : store) (self : nat) (op : logger -> logger * A)
    : option (store * A) :=
  API ← st !! self;
  let (API', a) := op API in
  Some (<[self := API']> st, a).

(** A new instance gets the next id *)
Definition create (penv : process_env) (options : options) (st : store) : store * result nat :=
  match logops penv options with
  | Ok API => (st ++ [API], Ok (length st))
  | Throw e => (st, Throw e)
  end.

(** [API.child(localContext)] of instance [self] *)
Definition child (penv : process_env) (st : store) (self : nat) (localContext : value)
    : option (store * result nat) :=
  API ← st !! self;
  Some (create penv
          {| opt_level := Some (getLevel API);
             opt_getContext := Some (child_getter self localContext);
             opt_format := Some (API_format API);
             opt_stream := Some (API_stream API) |}
          st).

(** A call of a context getter.  [fuel] bounds the depth of calls: the
    getter of a child calls the one its parent has at that time. *)
Fixpoint call_getter (fuel : nat) (st : store) (fn : getter) : option value :=
  match fuel with
  | O => None
  | S n =>
      match fn with
      | noop_getter => Some VUndefined
      | user_getter v => Some v
      | child_getter parent localContext =>
          API ← st !! parent;
          context ← call_getter n st (API_getContext API);
          Some (merge context localContext)
      end
  end.

(** The same call as a relation: the value a getter returns.  A getter
    that calls itself through a chain of parents returns nothing. *)
Inductive getter_returns (st : store) : getter -> value -> Prop :=
| noop_returns :
    getter_returns st noop_getter VUndefined
| user_returns (v : value) :
    getter_returns st (user_getter v) v
| child_returns (parent : nat) (localContext : value) (API : logger) (context : value) :
    st !! parent = Some API ->
    getter_returns st (API_getContext API) context ->
    getter_returns st (child_getter parent localContext) (merge context localContext).

(** What a call does that can be observed from outside *)
Inductive event : Type :=
| EvFormat (level : string) (context message : value) (args : list value) (err : value)
| EvWrite (stream : sink) (chunk : string).

(** The function [log] that [logWrap(level)] returns, of instance [self] *)
Definition log (level : string) (fuel : nat) (env : fmt_env) (st : store) (self : nat)
    (arguments : list value) : option (list event * result unit) :=
  API ← st !! self;
  ambient ← call_getter fuel st (API_getContext API);
  let r := resolve ambient arguments in
  let context := js_or (rec_context r) (VObj []) in
  let formatted := EvFormat level context (rec_message r) (rec_args r) (rec_err r) in
  match API_format API env level context (rec_message r) (rec_args r) (rec_err r) with
  | Ok trace =>
      Some ([formatted; EvWrite (API_stream API) (to_string trace +:+ LF)], Ok tt)
  | Throw e => Some ([formatted], Throw e)
  end.

(** [API[name](...arguments)] of instance [self] *)
Definition call (name : string) (fuel : nat) (env : fmt_env) (st : store) (self : nat)
    (arguments : list value) : option (list event * result unit) :=
  API ← st !! self;
  match method_get name (API_methods API) with
  | Some noop => Some ([], Ok tt)
  | Some (logWrap level) => log level fuel env st self arguments
  | None => Some ([], Throw (TypeError "API[name] is not a function"))
  end.

(** ** [merge] on a heap

    The same function with the objects it reads and the object it
    creates at locations of a heap, which shows what it writes. *)

Abbreviation heap := (list props).






End Logops.

Abbreviation store := (list logger).
Abbreviation heap := (list props).

(** ** Lines of text *)

(** A text without a line feed *)
Fixpoint no_line_feed (s : string) : bool :=
  match s with
  | EmptyString => true
  | String c s' => (negb (Ascii.eqb c (ascii_of_nat 10)) && no_line_feed s')%bool
  end.

Definition starts_with (p s : string) : bool :=
  match strip_prefix p s with
  | Some _ => true
  | None => false
  end.

(** A text in which every line feed is followed by six spaces *)
Fixpoint indented (s : string) : bool :=
  match s with
  | EmptyString => true
  | String c s' =>
      ((if Ascii.eqb c (ascii_of_nat 10) then starts_with "      " s' else true)
       && indented s')%bool
  end.

(** ** An executable platform

    [utc_host] is a host in the UTC time zone whose [toUpperCase] acts
    on the letters a-z.  [node_model] implements the specifiers [%s],
    [%d], [%j] and [%%] of [util.format], prints values the way
    [util.inspect] prints small ones, has chalk's colours switched off
    and describes an error by its name and message. *)

Module Model.

Definition upper_char (c : ascii) : ascii :=
  let n := nat_of_ascii c in
  if ((97 <=? n) && (n <=? 122))%nat then ascii_of_nat (n - 32) else c.

Fixpoint upper (s : string) : string :=
  match s with
  | EmptyString => EmptyString
  | String c s' => String (upper_char c) (upper s')
  end.

Definition day_name (d : Z) : string :=
  nth (Z.to_nat d) ["Sun"; "Mon"; "Tue"; "Wed"; "Thu"; "Fri"; "Sat"] EmptyString.

Definition month_name (m : Z) : string :=
  nth (Z.to_nat (m - 1))
      ["Jan"; "Feb"; "Mar"; "Apr"; "May"; "Jun"; "Jul"; "Aug"; "Sep"; "Oct"; "Nov"; "Dec"]
      EmptyString.

Definition date_string (t : Z) : string :=
  let days := t / 86400000 in
  let '(y, m, d) := civil_of_days days in
  day_name ((days + 4) mod 7) +:+ " " +:+ month_name m +:+ " " +:+ pad_digits 2 d +:+ " "
  +:+ year_string y +:+ " " +:+ time_of_day (t mod 86400000) +:+ " GMT+0000 (UTC)".

#[export] Instance utc_host : Host :=
  {| toUpperCase := upper; Date_toString := date_string |}.

Definition quote_single (s : string) : string := "'" +:+ s +:+ "'".

Fixpoint inspect (v : value) : string :=
  match v with
  | VStr s => quote_single s
  | VArr xs =>
      match xs with
      | [] => "[]"
      | _ => "[ " +:+ (fix elems (l : list value) : string :=
                         match l with
                         | [] => EmptyString
                         | [x] => inspect x
                         | x :: l' => inspect x +:+ ", " +:+ elems l'
                         end) xs +:+ " ]"
      end
  | VObj ps =>
      match ps with
      | [] => "{}"
      | _ => "{ " +:+ (fix fields (l : props) : string :=
                         match l with
                         | [] => EmptyString
                         | [(k, x)] => k +:+ ": " +:+ inspect x
                         | (k, x) :: l' => k +:+ ": " +:+ inspect x +:+ ", " +:+ fields l'
                         end) ps +:+ " }"
      end
  | VDate t => toISOString t
  | VErr name message => "[" +:+ Error_toString name message +:+ "]"
  | VFun _ => "[Function]"
  | VCircular => "[Circular]"
  | _ => to_string v
  end.

(** [%d] *)
Definition as_number (v : value) : string :=
  match v with
  | VNum n => string_of_Z n
  | VBool b => if b then "1" else "0"
  | VNull => "0"
  | _ => "NaN"
  end.

(** [%j] *)
Definition as_json (v : value) : string :=
  match JSON_stringify v with
  | Ok s => to_string s
  | Throw _ => "[Circular]"
  end.

(** The format string with its specifiers replaced, and the arguments left over *)
Fixpoint interpolate (f : string) (args : list value) : string * list value :=
  match f with
  | EmptyString => (EmptyString, args)
  | String c f1 =>
      if Ascii.eqb c "%" then
        match f1 with
        | String d f2 =>
            if Ascii.eqb d "%" then
              let (s, rest) := interpolate f2 args in (String "%" s, rest)
            else
              let conv : option (value -> string) :=
                if Ascii.eqb d "s" then Some to_string
                else if Ascii.eqb d "d" then Some as_number
                else if Ascii.eqb d "j" then Some as_json
                else None in
              match conv, args with
              | Some to_text, x :: args' =>
                  let (s, rest) := interpolate f2 args' in (to_text x +:+ s, rest)
              | _, _ =>
                  let (s, rest) := interpolate f1 args in (String c s, rest)
              end
        | EmptyString => (String c EmptyString, args)
        end
      else
        let (s, rest) := interpolate f1 args in (String c s, rest)
  end.

(** An argument no specifier used *)
Definition extra (x : value) : string :=
  if (strict_ne_null x && type_tag_eqb (typeof x) TObject)%bool then inspect x else to_string x.

Definition format (args : list value) : string :=
  match args with
  | [VStr f] => f
  | VStr f :: args' =>
      let (s, rest) := interpolate f args' in
      fold_left (fun str x => str +:+ " " +:+ extra x) rest s
  | _ => join " " (map inspect args)
  end.

Definition describe (err : value) (withStack : bool) : string :=
  to_string (string_plus (string_plus (get err "name") (VStr ": ")) (get err "message")).

Definition describe_object (err : value) (withStack : bool) : props :=
  [("message", get err "message"); ("name", get err "name")].

#[export] Instance node_model : Runtime :=
  {| util_inspect := inspect;
     util_format := format;
     chalk := fun _ text => text;
     serr_toString := describe;
     serr_toObject := describe_object;
     util_format_plain := fun s _ => eq_refl;
     util_format_undefined := eq_refl |}.

(** [module.exports = logops()] in an empty environment, and an
    instance of the delimited formatter whose getter returns the empty
    context, as the test suite sets one up *)
Definition empty_env : process_env :=
  {| LOGOPS_LEVEL := None; LOGOPS_FORMAT := None; NODE_ENV := None |}.

Definition root_logger : logger :=
  fst (setLevel (VStr DEFAULT_LEVEL)
         {| opts_level := VStr DEFAULT_LEVEL; API_stream := stdout;
            API_format := formatJsonTrace; API_getContext := noop_getter;
            API_methods := [] |}).

Definition pipe_logger : logger :=
  fst (setContextGetter (user_getter (VObj [])) (fst (setFormat formatTrace root_logger))).

End Model.

(** * Properties *)

Section Properties.
Context `{HT : Host} `{RT : Runtime}.

(** ** Strings *)

#[local] Arguments String.append !_ _ / : simpl nomatch.

Lemma append_assoc (a b c : string) : (a +:+ b) +:+ c = a +:+ (b +:+ c).
Proof. induction a as [|x a IH]; simpl; [reflexivity | rewrite IH; reflexivity]. Qed.

Lemma append_empty_r (a : string) : a +:+ EmptyString = a.
Proof. induction a as [|x a IH]; simpl; [reflexivity | rewrite IH; reflexivity]. Qed.

Lemma length_append (a b : string) :
  String.length (a +:+ b) = (String.length a + String.length b)%nat.
Proof. induction a as [|x a IH]; simpl; [reflexivity | rewrite IH; reflexivity]. Qed.

(** ** Property lists *)

Lemma prop_get_app k ps qs :
  prop_get k (ps ++ qs) =
  match prop_get k ps with Some v => Some v | None => prop_get k qs end.
Proof.
  induction ps as [|[k' v'] ps IH]; simpl; [reflexivity|].
  destruct (String.eqb k k'); [reflexivity | exact IH].
Qed.

Lemma prop_get_replace k' k v ps :
  prop_mem k ps = true ->
  prop_get k' (prop_replace k v ps) = if String.eqb k' k then Some v else prop_get k' ps.
Proof.
  unfold prop_mem.
  induction ps as [|[k0 v0] ps IH]; simpl; [discriminate|].
  destruct (String.eqb k k0) eqn:E.
  - intros _. apply String.eqb_eq in E. subst k0. simpl.
    destruct (String.eqb k' k); reflexivity.
  - intros Hm. simpl. destruct (String.eqb k' k0) eqn:E'.
    + apply String.eqb_eq in E'. subst k0.
      rewrite String.eqb_sym, E. reflexivity.
    + apply IH, Hm.
Qed.

Lemma prop_get_insert_index k' n k v ps :
  prop_get k ps = None ->
  prop_get k' (prop_insert_index n k v ps) = if String.eqb k' k then Some v else prop_get k' ps.
Proof.
  induction ps as [|[k0 v0] ps IH]; simpl; intros Hk.
  - destruct (String.eqb k' k); reflexivity.
  - destruct (String.eqb k k0) eqn:E; [discriminate|].
    destruct (array_index k0) as [n'|]; [destruct (n <? n')|]; simpl;
      try (destruct (String.eqb k' k); reflexivity).
    destruct (String.eqb k' k0) eqn:E'.
    + apply String.eqb_eq in E'. subst k0. rewrite String.eqb_sym, E. reflexivity.
    + apply IH, Hk.
Qed.

(** Reading after [obj[k] = v] *)
Lemma prop_get_set k' k v ps :
  prop_get k' (prop_set k v ps) = if String.eqb k' k then Some v else prop_get k' ps.
Proof.
  unfold prop_set. destruct (prop_mem k ps) eqn:Hm.
  - apply prop_get_replace, Hm.
  - assert (Hk : prop_get k ps = None).
    { unfold prop_mem in Hm. destruct (prop_get k ps); [discriminate | reflexivity]. }
    destruct (array_index k) as [n|].
    + apply prop_get_insert_index, Hk.
    + rewrite prop_get_app. simpl. destruct (prop_get k' ps) eqn:E'.
      * destruct (String.eqb k' k) eqn:E; [|reflexivity].
        apply String.eqb_eq in E. subst k'. congruence.
      * destruct (String.eqb k' k); reflexivity.
Qed.

Lemma includes_keys k ps : includes (Object_keys ps) k = prop_mem k ps.
Proof.
  unfold prop_mem, Object_keys.
  induction ps as [|[k0 v0] ps IH]; simpl; [reflexivity|].
  destruct (String.eqb k k0); [reflexivity | exact IH].
Qed.

(** What [obj[k]] reads is the enumerable property, when there is one *)
Lemma get_enumerable obj k v :
  prop_get k (enumerable_props obj) = Some v -> get obj k = v.
Proof.
  destruct obj; simpl; try discriminate; intros ->; reflexivity.
Qed.

Lemma prop_get_copy_keys obj k ks res :
  prop_get k (fold_left (fun res attrname => prop_set attrname (get obj attrname) res) ks res) =
  if includes ks k then Some (get obj k) else prop_get k res.
Proof.
  revert res. induction ks as [|a ks IH]; intros res; simpl; [reflexivity|].
  rewrite IH, prop_get_set.
  destruct (String.eqb k a) eqn:E; simpl.
  - apply String.eqb_eq in E. subst a. destruct (includes ks k); reflexivity.
  - reflexivity.
Qed.

(** Reading after one copying loop *)
Lemma prop_get_copy_props obj k res :
  prop_get k (copy_props obj res) =
  match prop_get k (enumerable_props obj) with
  | Some v => Some v
  | None => prop_get k res
  end.
Proof.
  unfold copy_props. rewrite prop_get_copy_keys, includes_keys. unfold prop_mem.
  destruct (prop_get k (enumerable_props obj)) eqn:E; [|reflexivity].
  f_equal. apply get_enumerable, E.
Qed.

Lemma prop_get_merge obj1 obj2 k :
  prop_get k (enumerable_props (merge obj1 obj2)) =
  match prop_get k (enumerable_props obj2) with
  | Some v => Some v
  | None => prop_get k (enumerable_props obj1)
  end.
Proof.
  unfold merge. simpl. rewrite !prop_get_copy_props. simpl.
  destruct (prop_get k (enumerable_props obj2)); [reflexivity|].
  destruct (prop_get k (enumerable_props obj1)); reflexivity.
Qed.

(** ** [merge] *)





(** ** The call resolver *)

(** C3. A call that leads with an error has the error as cause.  With
    no further argument the message is the error's name, a colon and a
    space, and its message, and there are no arguments; with further
    arguments the message is the second argument and the arguments are
    what follows it. *)
Theorem resolve_error_first (ambient : value) (name message : string)
    (second : value) (rest : list value) :
  let e := VErr name message in
  classify [e] = ErrorLed /\
  classify (e :: second :: rest) = ErrorLed /\
  resolve ambient [e] =
    {| rec_context := ambient; rec_message := VStr (name +:+ ": " +:+ message);
       rec_args := []; rec_err := e |} /\
  resolve ambient (e :: second :: rest) =
    {| rec_context := ambient; rec_message := second; rec_args := rest; rec_err := e |}.
Proof.
  cbv zeta. repeat split.
  unfold resolve, string_plus. simpl.
  rewrite append_assoc. reflexivity.
Qed.

(** C2, as the code has it.  A call whose only argument is a date takes
    the third branch: the date is the per-call context, merged with the
    ambient context, and the message is [undefined].  A date has no
    enumerable property, so the merged context has the entries of the
    ambient context.  Of dates and errors only an error is told apart. *)
Theorem resolve_date_only (ambient : value) (d : Z) (name message : string) :
  classify [VDate d] = ContextLed /\
  resolve ambient [VDate d] =
    {| rec_context := merge ambient (VDate d); rec_message := VUndefined;
       rec_args := []; rec_err := VUndefined |} /\
  (forall k, prop_get k (enumerable_props (merge ambient (VDate d))) =
             prop_get k (enumerable_props ambient)) /\
  classify [VErr name message] = ErrorLed.
Proof.
  repeat split.
  intros k. rewrite prop_get_merge. reflexivity.
Qed.

(** A call without arguments: the message is [undefined] *)
Lemma resolve_no_arguments (ambient : value) :
  resolve ambient [] =
    {| rec_context := ambient; rec_message := VUndefined; rec_args := []; rec_err := VUndefined |}.
Proof. reflexivity. Qed.

(** ** Context getters *)

(** Fuel is a bound only: more of it gives the same value *)
Lemma call_getter_mono (st : store) (fuel : nat) : forall fuel' fn v,
  call_getter fuel st fn = Some v -> (fuel <= fuel')%nat -> call_getter fuel' st fn = Some v.
Proof.
  induction fuel as [|n IH]; intros fuel' fn v Hcall Hle; [discriminate|].
  destruct fuel' as [|n']; [lia|].
  destruct fn as [|w|parent localContext]; simpl in *; try exact Hcall.
  destruct (st !! parent) as [API|]; simpl in *; [|discriminate].
  destruct (call_getter n st (API_getContext API)) as [context|] eqn:E; [|discriminate].
  rewrite (IH n' _ _ E) by lia. exact Hcall.
Qed.

(** A getter returns a value exactly when some fuel is enough for the call *)
Lemma getter_returns_fuel (st : store) (fn : getter) (v : value) :
  getter_returns st fn v <-> exists fuel, call_getter fuel st fn = Some v.
Proof.
  split.
  - induction 1 as [|w|parent localContext API context Hparent _ [fuel IH]].
    + exists 1%nat. reflexivity.
    + exists 1%nat. reflexivity.
    + exists (S fuel). simpl. rewrite Hparent. simpl. rewrite IH. reflexivity.
  - intros [fuel Hcall]. revert fn v Hcall.
    induction fuel as [|n IH]; intros fn v Hcall; [discriminate|].
    destruct fn as [|w|parent localContext]; simpl in Hcall.
    + injection Hcall as <-. constructor.
    + injection Hcall as <-. constructor.
    + destruct (st !! parent) as [API|] eqn:Hparent; simpl in Hcall; [|discriminate].
      destruct (call_getter n st (API_getContext API)) as [context|] eqn:E; [|discriminate].
      injection Hcall as <-. econstructor; [exact Hparent | apply IH, E].
Qed.

(** ** [setLevel] and the level functions *)

Lemma method_get_set name name' fn ms :
  method_get name (method_set name' fn ms) =
  if String.eqb name name' then Some fn else method_get name ms.
Proof.
  induction ms as [|[n0 f0] ms IH]; simpl.
  - destruct (String.eqb name name'); reflexivity.
  - destruct (String.eqb name' n0) eqn:E; simpl.
    + apply String.eqb_eq in E. subst n0.
      destruct (String.eqb name name'); reflexivity.
    + destruct (String.eqb name n0) eqn:E'.
      * apply String.eqb_eq in E'. subst n0.
        rewrite String.eqb_sym, E. reflexivity.
      * exact IH.
Qed.

(** [setLevel] with a string: what it leaves of the instance *)
Lemma setLevel_string (name : string) (API : logger) :
  let API' := fst (setLevel (VStr name) API) in
  snd (setLevel (VStr name) API) = Ok tt /\
  opts_level API' = VStr name /\
  API_stream API' = API_stream API /\
  API_format API' = API_format API /\
  API_getContext API' = API_getContext API /\
  forall logLevel, In logLevel levels ->
    method_get (toLowerCase logLevel) (API_methods API') =
    Some (bound_fn (indexOf levels (toUpperCase name)) logLevel).
Proof.
  cbv zeta. unfold setLevel. cbn [fst snd levels fold_left].
  repeat split.
  intros logLevel Hin. unfold set_method, set_opts_level. cbn [API_methods].
  rewrite !method_get_set. unfold bound_fn.
  cbn in Hin. destruct Hin as [<-|[<-|[<-|[<-|[<-|[]]]]]]; reflexivity.
Qed.

(** C1, as the code has it.  [setLevel] does not validate its argument:
    with any string it returns without an error, after which
    [getLevel()] is that string as it was passed.  The name is matched
    in upper case; a name that is none of the five levels has index -1,
    which is below every severity, so every level function logs. *)
Theorem setLevel_accepts_every_string (API : logger) (name : string) :
  let API' := fst (setLevel (VStr name) API) in
  snd (setLevel (VStr name) API) = Ok tt /\
  getLevel API' = VStr name /\
  (indexOf levels (toUpperCase name) = -1 ->
   forall logLevel, In logLevel levels ->
     method_get (toLowerCase logLevel) (API_methods API') = Some (logWrap logLevel)).
Proof.
  cbv zeta.
  destruct (setLevel_string name API) as (Hok & Hlevel & _ & _ & _ & Hfn).
  split; [exact Hok|]. split; [exact Hlevel|].
  intros Hidx logLevel Hin. rewrite (Hfn logLevel Hin), Hidx. unfold bound_fn.
  cbn in Hin. destruct Hin as [<-|[<-|[<-|[<-|[<-|[]]]]]]; reflexivity.
Qed.

(** C4. After [setLevel(L)] with a recognized level, the function of a
    severity [S] is the logging closure when index(L) <= index(S) and
    the no-op otherwise.  A call of the closure reads the context
    once, invokes the formatter once and writes the formatted line and
    a line feed to the stream once; it returns whenever the context
    getter does.  A call of the no-op does nothing, whatever the
    arguments: no context is read, nothing is formatted or written. *)
Theorem setLevel_gates_levels (API : logger) (L S : string) :
  In S levels ->
  0 <= indexOf levels (toUpperCase L) ->
  let API' := fst (setLevel (VStr L) API) in
  let enabled := indexOf levels (toUpperCase L) <=? indexOf levels S in
  let pipeline env ambient arguments :=
    let r := resolve ambient arguments in
    let context := js_or (rec_context r) (VObj []) in
    let formatted := EvFormat S context (rec_message r) (rec_args r) (rec_err r) in
    match API_format API env S context (rec_message r) (rec_args r) (rec_err r) with
    | Ok trace => ([formatted; EvWrite (API_stream API) (to_string trace +:+ LF)], Ok tt)
    | Throw e => ([formatted], Throw e)
    end in
  method_get (toLowerCase S) (API_methods API') = Some (if enabled then logWrap S else noop) /\
  forall env (st : store) self arguments,
    st !! self = Some API' ->
    (forall fuel,
       call (toLowerCase S) fuel env st self arguments =
       if enabled
       then ambient ← call_getter fuel st (API_getContext API);
            Some (pipeline env ambient arguments)
       else Some ([], Ok tt)) /\
    (enabled = true ->
     forall ambient, getter_returns st (API_getContext API) ambient ->
       exists fuel0, forall fuel, (fuel0 <= fuel)%nat ->
         call (toLowerCase S) fuel env st self arguments =
         Some (pipeline env ambient arguments)).
Proof.
  intros HS HL. cbv zeta.
  destruct (setLevel_string L API) as (_ & _ & Hstream & Hformat & Hctx & Hfn).
  specialize (Hfn S HS). unfold bound_fn in Hfn.
  split; [exact Hfn|].
  intros env st self arguments Hself.
  assert (Hcall : forall fuel,
    call (toLowerCase S) fuel env st self arguments =
    if indexOf levels (toUpperCase L) <=? indexOf levels S
    then log S fuel env st self arguments
    else Some ([], Ok tt)).
  { intros fuel. unfold call. rewrite Hself. cbn [mbind option_bind]. rewrite Hfn.
    destruct (indexOf levels (toUpperCase L) <=? indexOf levels S); reflexivity. }
  assert (Hlog : forall fuel,
    log S fuel env st self arguments =
    ambient ← call_getter fuel st (API_getContext API);
    Some (let r := resolve ambient arguments in
          let context := js_or (rec_context r) (VObj []) in
          let formatted := EvFormat S context (rec_message r) (rec_args r) (rec_err r) in
          match API_format API env S context (rec_message r) (rec_args r) (rec_err r) with
          | Ok trace => ([formatted; EvWrite (API_stream API) (to_string trace +:+ LF)], Ok tt)
          | Throw e => ([formatted], Throw e)
          end)).
  { intros fuel. unfold log. rewrite Hself. cbn [mbind option_bind].
    rewrite Hstream, Hformat, Hctx.
    destruct (call_getter fuel st (API_getContext API)) as [ambient|]; [|reflexivity].
    cbn [mbind option_bind]. cbv zeta.
    destruct (API_format API env S _ _ _ _); reflexivity. }
  split.
  - intros fuel. rewrite Hcall.
    destruct (indexOf levels (toUpperCase L) <=? indexOf levels S); [|reflexivity].
    apply Hlog.
  - intros Hen ambient Hret.
    apply getter_returns_fuel in Hret. destruct Hret as [fuel0 Hfuel0].
    exists fuel0. intros fuel Hle. rewrite Hcall, Hen, Hlog.
    rewrite (call_getter_mono st fuel0 fuel _ _ Hfuel0 Hle). reflexivity.
Qed.

(** ** Child instances *)



Lemma on_logger_lookup {A} (st st' : store) (P : nat) (API : logger)
    (op : logger -> logger * A) (a : A) :
  st !! P = Some API ->
  on_logger st P op = Some (st', a) ->
  st' = <[P := fst (op API)]> st /\ a = snd (op API).
Proof.
  intros HP. unfold on_logger. rewrite HP. simpl.
  destruct (op API) as [API' a']. intros [= <- <-]. split; reflexivity.
Qed.

(** [logops] with every option given *)
Lemma logops_with_options penv level format fn stream :
  logops penv {| opt_level := Some level; opt_format := Some format;
                 opt_getContext := Some fn; opt_stream := Some stream |} =
  bind (snd (setLevel level
               {| opts_level := level; API_stream := stream; API_format := format;
                  API_getContext := fn; API_methods := [] |}))
       (fun _ =>
          Ok (fst (setLevel level
                     {| opts_level := level; API_stream := stream; API_format := format;
                        API_getContext := fn; API_methods := [] |}))).
Proof.
  unfold logops. cbn [opt_level opt_stream opt_format opt_getContext default from_option id opts_level].
  destruct (setLevel level _) as [API r]. reflexivity.
Qed.


(** [child] returns an instance when the level of the parent is a string *)
Lemma child_of_string_level (penv : process_env) (st : store) (P : nat)
    (API : logger) (c : value) (name : string) :
  st !! P = Some API ->
  getLevel API = VStr name ->
  exists kid, child penv st P c = Some (st ++ [kid], Ok (length st)).
Proof.
  intros HP Hlevel. unfold child. rewrite HP. cbn [mbind option_bind].
  unfold create. rewrite logops_with_options, Hlevel.
  set (API0 := {| opts_level := VStr name; API_stream := API_stream API;
                  API_format := API_format API;
                  API_getContext := child_getter P c; API_methods := [] |}).
  destruct (setLevel_string name API0) as (Hok & _).
  rewrite Hok. cbn [bind]. eauto.
Qed.


(** ** The formatters *)

Lemma prop_get_In_keys k ps v : prop_get k ps = Some v -> In k (Object_keys ps).
Proof.
  unfold Object_keys. induction ps as [|[k0 v0] ps IH]; simpl; [discriminate|].
  destruct (String.eqb k k0) eqn:E.
  - apply String.eqb_eq in E. intros _. left. symmetry. exact E.
  - intros H. right. apply IH, H.
Qed.

(** The delimited formatter stores the message under [msg] as it is,
    unless it is a date or an error *)
Lemma formatTrace_recontext_msg env level context message :
  (instanceof_Date message || instanceof_Error message)%bool = false ->
  prop_get "msg" (formatTrace_recontext env level context message) = Some message.
Proof.
  intros H. unfold formatTrace_recontext. rewrite H. rewrite prop_get_set. reflexivity.
Qed.

Lemma formatTrace_epoch_undefined :
  formatTrace (default_env 0) "INFO" (VObj []) VUndefined [] VUndefined =
  Ok (VStr (epoch_line "undefined")).
Proof.
  unfold formatTrace. cbn [loose_eq_null].
  replace (formatTrace_args (default_env 0) "INFO" (VObj []) VUndefined [] VUndefined)
    with [VStr (epoch_line "undefined")] by (vm_compute; reflexivity).
  rewrite util_format_plain by reflexivity. reflexivity.
Qed.

Lemma formatTrace_epoch_error :
  formatTrace (default_env 0) "INFO" (VObj []) (VStr "Error: foo") [] (VErr "Error" "foo") =
  Ok (VStr (epoch_line "Error: foo")).
Proof.
  unfold formatTrace. cbn [loose_eq_null].
  replace (formatTrace_args (default_env 0) "INFO" (VObj []) (VStr "Error: foo") []
             (VErr "Error" "foo"))
    with [VStr (epoch_line "Error: foo")] by (vm_compute; reflexivity).
  rewrite util_format_plain by reflexivity. reflexivity.
Qed.

(** A call of the logging closure on an instance whose getter is a
    function of the application *)
Lemma log_user_getter (API : logger) (st : store) (self : nat) ambient level fuel env arguments :
  st !! self = Some API ->
  API_getContext API = user_getter ambient ->
  log level (S fuel) env st self arguments =
  let r := resolve ambient arguments in
  let context := js_or (rec_context r) (VObj []) in
  match API_format API env level context (rec_message r) (rec_args r) (rec_err r) with
  | Ok trace =>
      Some ([EvFormat level context (rec_message r) (rec_args r) (rec_err r);
             EvWrite (API_stream API) (to_string trace +:+ LF)], Ok tt)
  | Throw e =>
      Some ([EvFormat level context (rec_message r) (rec_args r) (rec_err r)], Throw e)
  end.
Proof.
  intros Hself Hctx. unfold log. rewrite Hself. cbn [mbind option_bind].
  rewrite Hctx. reflexivity.
Qed.

(** ** JSON: the decoder reads what the encoder writes *)

Lemma digit_char_spec (d : Z) :
  0 <= d < 10 ->
  is_digit (digit_char d) = true /\ Z.of_nat (nat_of_ascii (digit_char d)) - 48 = d.
Proof.
  intros H.
  assert (Hd : d = 0 \/ d = 1 \/ d = 2 \/ d = 3 \/ d = 4 \/ d = 5 \/ d = 6 \/ d = 7 \/
               d = 8 \/ d = 9) by lia.
  destruct Hd as [->|[->|[->|[->|[->|[->|[->|[->|[->| ->]]]]]]]]]; split; reflexivity.
Qed.

Lemma parse_digits_stop (acc : Z) (rest : string) :
  no_digit_head rest -> parse_digits acc rest = (acc, rest).
Proof.
  destruct rest as [|c rest]; simpl; [reflexivity|]. intros ->. reflexivity.
Qed.

Lemma parse_digits_pad (w : nat) : forall (n acc : Z) (rest : string),
  0 <= n ->
  parse_digits acc (pad_digits w n +:+ rest) = parse_digits (acc * 10 ^ Z.of_nat w + n mod 10 ^ Z.of_nat w) rest.
Proof.
  induction w as [|w IH]; intros n acc rest Hn.
  - simpl. rewrite Z.mod_1_r. f_equal. lia.
  - cbn [pad_digits]. rewrite append_assoc. rewrite IH by (apply Z.div_pos; lia).
    destruct (digit_char_spec (n mod 10)) as [Hd Hv]; [apply Z.mod_pos_bound; lia|].
    change (String (digit_char (n mod 10)) EmptyString +:+ rest)
      with (String (digit_char (n mod 10)) rest).
    cbn [parse_digits]. rewrite Hd. f_equal.
    rewrite Nat2Z.inj_succ, Z.pow_succ_r by lia.
    rewrite (Z.rem_mul_r n 10 (10 ^ Z.of_nat w)) by lia.
    lia.
Qed.

Lemma digits_fuel_bound (fuel : nat) : forall n : Z,
  0 <= n <= Z.of_nat fuel -> n < 10 ^ Z.of_nat (digits_fuel fuel n).
Proof.
  induction fuel as [|f IH]; intros n Hn.
  - simpl. lia.
  - cbn [digits_fuel]. destruct (n <? 10) eqn:E.
    + apply Z.ltb_lt in E. simpl. lia.
    + apply Z.ltb_ge in E.
      assert (Hq : 0 <= n / 10 <= Z.of_nat f).
      { split; [apply Z.div_pos; lia|].
        assert (n / 10 < n) by (apply Z.div_lt; lia). lia. }
      specialize (IH (n / 10) Hq).
      rewrite Nat2Z.inj_succ, Z.pow_succ_r by lia.
      pose proof (Z.div_mod n 10 ltac:(lia)) as Hdm.
      pose proof (Z.mod_pos_bound n 10 ltac:(lia)). lia.
Qed.

Lemma num_digits_bound (n : Z) : 0 <= n -> n < 10 ^ Z.of_nat (num_digits n).
Proof. intros Hn. apply digits_fuel_bound. lia. Qed.

Lemma num_digits_pos (n : Z) : exists w, num_digits n = S w.
Proof.
  unfold num_digits. destruct (Z.to_nat n) as [|f]; simpl; [eauto|].
  destruct (n <? 10); eauto.
Qed.

(** A numeral starts with a digit *)
Lemma pad_digits_head (w : nat) : forall (n : Z) (rest : string),
  0 <= n ->
  exists c s, pad_digits (S w) n +:+ rest = String c s /\ is_digit c = true.
Proof.
  induction w as [|w IH]; intros n rest Hn.
  - destruct (digit_char_spec (n mod 10)) as [Hd _]; [apply Z.mod_pos_bound; lia|].
    simpl. eauto.
  - change (pad_digits (S (S w)) n)
      with (pad_digits (S w) (n / 10) +:+ String (digit_char (n mod 10)) EmptyString).
    rewrite append_assoc. apply IH. apply Z.div_pos; lia.
Qed.

Lemma parse_digits_numeral (n : Z) (rest : string) :
  0 <= n -> no_digit_head rest ->
  parse_digits 0 (pad_digits (num_digits n) n +:+ rest) = (n, rest).
Proof.
  intros Hn Hrest. rewrite parse_digits_pad by exact Hn.
  rewrite parse_digits_stop by exact Hrest. f_equal.
  rewrite Z.mod_small; [lia|]. split; [exact Hn | apply num_digits_bound, Hn].
Qed.

Lemma digit_not_minus (c : ascii) : is_digit c = true -> Ascii.eqb c "-" = false.
Proof.
  destruct c as [[] [] [] [] [] [] [] []]; try discriminate; reflexivity.
Qed.

Lemma parse_number_numeral (n : Z) (rest : string) :
  no_digit_head rest ->
  parse_number (string_of_Z n +:+ rest) = Some (n, rest).
Proof.
  intros Hrest. unfold string_of_Z. destruct (n <? 0) eqn:E.
  - apply Z.ltb_lt in E.
    destruct (num_digits_pos (- n)) as [w Hw].
    destruct (pad_digits_head w (- n) rest ltac:(lia)) as (c & s & Hcs & Hc).
    pose proof (parse_digits_numeral (- n) rest ltac:(lia) Hrest) as Hp.
    rewrite Hw in Hp. rewrite Hcs in Hp.
    rewrite append_assoc. simpl. rewrite Hw, Hcs, Hc, Hp. f_equal. f_equal. lia.
  - apply Z.ltb_ge in E.
    destruct (num_digits_pos n) as [w Hw].
    destruct (pad_digits_head w n rest E) as (c & s & Hcs & Hc).
    pose proof (parse_digits_numeral n rest E Hrest) as Hp.
    rewrite Hw in *. rewrite Hcs in *.
    unfold parse_number. rewrite (digit_not_minus c Hc), Hc, Hp. reflexivity.
Qed.

(** An escaped character, read back *)
Lemma parse_chars_escape_char (c : ascii) (tail : string) :
  parse_chars (escape_char c +:+ tail) =
  '(str, r) ← parse_chars tail; Some (String c str, r).
Proof.
  destruct c as [[] [] [] [] [] [] [] []]; reflexivity.
Qed.

Lemma parse_chars_escape (s : string) (rest : string) :
  parse_chars (escape s +:+ String DQUOTE rest) = Some (s, rest).
Proof.
  induction s as [|c s IH].
  - reflexivity.
  - cbn [escape]. rewrite append_assoc, parse_chars_escape_char, IH. reflexivity.
Qed.

Lemma quote_append (s rest : string) :
  quote s +:+ rest = String DQUOTE (escape s +:+ String DQUOTE rest).
Proof. unfold quote. simpl. rewrite append_assoc. reflexivity. Qed.

Lemma render_JArr (l : list json) : render (JArr l) = "[" +:+ render_elems l +:+ "]".
Proof. reflexivity. Qed.

Lemma render_JObj (fs : list (string * json)) :
  render (JObj fs) = "{" +:+ render_fields fs +:+ "}".
Proof. reflexivity. Qed.

Lemma json_size_JArr (l : list json) : json_size (JArr l) = S (elems_size l).
Proof. reflexivity. Qed.

Lemma json_size_JObj (fs : list (string * json)) : json_size (JObj fs) = S (fields_size fs).
Proof. reflexivity. Qed.

(** A numeral starts with none of the characters [parse_value] dispatches on *)
Lemma digit_head (c : ascii) :
  is_digit c = true \/ c = "-"%char ->
  Ascii.eqb c "n" = false /\ Ascii.eqb c "t" = false /\ Ascii.eqb c "f" = false /\
  Ascii.eqb c DQUOTE = false /\ Ascii.eqb c "[" = false /\ Ascii.eqb c "{" = false /\
  Ascii.eqb c "]" = false /\ Ascii.eqb c "}" = false.
Proof.
  intros [H| ->]; [|repeat split].
  destruct c as [[] [] [] [] [] [] [] []]; try discriminate; repeat split.
Qed.

Lemma string_of_Z_head (n : Z) (rest : string) :
  exists c s, string_of_Z n +:+ rest = String c s /\ (is_digit c = true \/ c = "-"%char).
Proof.
  unfold string_of_Z. destruct (n <? 0) eqn:E.
  - simpl. eauto.
  - apply Z.ltb_ge in E. destruct (num_digits_pos n) as [w ->].
    destruct (pad_digits_head w n rest E) as (c & s & -> & Hc). eauto.
Qed.

(** No document starts with a closing bracket *)
Lemma render_head (j : json) (rest : string) :
  exists c s, render j +:+ rest = String c s /\
              Ascii.eqb c "]" = false /\ Ascii.eqb c "}" = false.
Proof.
  destruct j as [|[]|n|str|l|fs]; try (simpl; eexists _, _; repeat split; fail).
  - destruct (string_of_Z_head n rest) as (c & s & Hcs & Hc).
    exists c, s. split; [exact Hcs|]. apply digit_head, Hc.
Qed.

Lemma render_elems_cons (x : json) (l : list json) :
  render_elems (x :: l) =
  render x +:+ match l with [] => EmptyString | _ => "," +:+ render_elems l end.
Proof. destruct l; simpl; [rewrite append_empty_r|]; reflexivity. Qed.

Lemma render_fields_cons (k : string) (x : json) (fs : list (string * json)) :
  render_fields ((k, x) :: fs) =
  quote k +:+ ":" +:+ render x +:+
  match fs with [] => EmptyString | _ => "," +:+ render_fields fs end.
Proof. destruct fs; simpl; [rewrite append_empty_r|]; reflexivity. Qed.

Lemma parse_value_S (n : nat) (c : ascii) (rest : string) :
  parse_value (S n) (String c rest) =
  if Ascii.eqb c "n" then r ← strip_prefix "ull" rest; Some (JNull, r)
  else if Ascii.eqb c "t" then r ← strip_prefix "rue" rest; Some (JBool true, r)
  else if Ascii.eqb c "f" then r ← strip_prefix "alse" rest; Some (JBool false, r)
  else if Ascii.eqb c DQUOTE then '(str, r) ← parse_chars rest; Some (JStr str, r)
  else if Ascii.eqb c "[" then
    match rest with
    | String c' r =>
        if Ascii.eqb c' "]" then Some (JArr [], r)
        else '(l, r') ← parse_elems n rest; Some (JArr l, r')
    | EmptyString => None
    end
  else if Ascii.eqb c "{" then
    match rest with
    | String c' r =>
        if Ascii.eqb c' "}" then Some (JObj [], r)
        else '(fs, r') ← parse_fields n rest; Some (JObj fs, r')
    | EmptyString => None
    end
  else '(z, r) ← parse_number (String c rest); Some (JNum z, r).
Proof. reflexivity. Qed.

Lemma parse_elems_S (n : nat) (s : string) :
  parse_elems (S n) s =
  '(x, r) ← parse_value n s;
  match r with
  | String c r' =>
      if Ascii.eqb c "," then '(xs, r'') ← parse_elems n r'; Some (x :: xs, r'')
      else if Ascii.eqb c "]" then Some ([x], r')
      else None
  | EmptyString => None
  end.
Proof. reflexivity. Qed.

Lemma parse_fields_S (n : nat) (s1 : string) :
  parse_fields (S n) (String DQUOTE s1) =
  '(k, s2) ← parse_chars s1;
  match s2 with
  | String colon s3 =>
      if Ascii.eqb colon ":" then
        '(x, r) ← parse_value n s3;
        match r with
        | String c r' =>
            if Ascii.eqb c "," then '(fs, r'') ← parse_fields n r'; Some ((k, x) :: fs, r'')
            else if Ascii.eqb c "}" then Some ([(k, x)], r')
            else None
        | EmptyString => None
        end
      else None
  | EmptyString => None
  end.
Proof. reflexivity. Qed.

(** With fuel for its size, a document is read back, and the text after it is left *)
Lemma parse_render_fuel (fuel : nat) :
  (forall j rest, (json_size j <= fuel)%nat -> no_digit_head rest ->
     parse_value fuel (render j +:+ rest) = Some (j, rest)) /\
  (forall l rest, l <> [] -> (elems_size l <= fuel)%nat ->
     parse_elems fuel (render_elems l +:+ String "]" rest) = Some (l, rest)) /\
  (forall fs rest, fs <> [] -> (fields_size fs <= fuel)%nat ->
     parse_fields fuel (render_fields fs +:+ String "}" rest) = Some (fs, rest)).
Proof.
  induction fuel as [|n (IHv & IHe & IHf)].
  { split; [|split].
    - intros j rest H. destruct j; simpl in H; lia.
    - intros [|x l] rest Hl H; [congruence | simpl in H; lia].
    - intros [|[k x] fs] rest Hl H; [congruence | simpl in H; lia]. }
  split; [|split].
  - intros j rest Hsize Hrest. destruct j as [|[]|z|str|l|fs].
    + reflexivity.
    + reflexivity.
    + reflexivity.
    + destruct (string_of_Z_head z rest) as (c & s & Hcs & Hc).
      destruct (digit_head c Hc) as (H1 & H2 & H3 & H4 & H5 & H6 & _).
      cbn [render]. rewrite Hcs, parse_value_S, H1, H2, H3, H4, H5, H6.
      rewrite <- Hcs, parse_number_numeral by exact Hrest. reflexivity.
    + cbn [render]. rewrite quote_append, parse_value_S.
      change (Ascii.eqb DQUOTE "n") with false.
      change (Ascii.eqb DQUOTE "t") with false.
      change (Ascii.eqb DQUOTE "f") with false.
      change (Ascii.eqb DQUOTE DQUOTE) with true.
      cbv iota. rewrite parse_chars_escape. reflexivity.
    + rewrite render_JArr, json_size_JArr in *.
      change ("[" +:+ render_elems l +:+ "]") with (String "[" (render_elems l +:+ "]")).
      change (String "[" (render_elems l +:+ "]") +:+ rest)
        with (String "[" ((render_elems l +:+ "]") +:+ rest)).
      rewrite append_assoc. change ("]" +:+ rest) with (String "]" rest).
      destruct l as [|x l']; [reflexivity|].
      rewrite parse_value_S. cbn [Ascii.eqb Bool.eqb].
      pose proof (IHe (x :: l') rest ltac:(congruence) ltac:(lia)) as He.
      rewrite render_elems_cons, append_assoc in *.
      destruct (render_head x (match l' with [] => EmptyString | _ => "," +:+ render_elems l' end
                                 +:+ String "]" rest)) as (c & s & Hcs & Hc & _).
      rewrite Hcs in *. rewrite Hc, He. reflexivity.
    + rewrite render_JObj, json_size_JObj in *.
      change ("{" +:+ render_fields fs +:+ "}") with (String "{" (render_fields fs +:+ "}")).
      change (String "{" (render_fields fs +:+ "}") +:+ rest)
        with (String "{" ((render_fields fs +:+ "}") +:+ rest)).
      rewrite append_assoc. change ("}" +:+ rest) with (String "}" rest).
      destruct fs as [|[k x] fs']; [reflexivity|].
      rewrite parse_value_S. cbn [Ascii.eqb Bool.eqb].
      pose proof (IHf ((k, x) :: fs') rest ltac:(congruence) ltac:(lia)) as Hf.
      rewrite render_fields_cons, append_assoc, quote_append in *.
      change (Ascii.eqb DQUOTE "}") with false. rewrite Hf. reflexivity.
  - intros [|x l'] rest Hl Hsize; [congruence|].
    rewrite render_elems_cons, append_assoc, parse_elems_S.
    change (elems_size (x :: l')) with (S (json_size x + elems_size l')) in Hsize.
    rewrite IHv; [| lia | destruct l'; reflexivity].
    cbn [mbind option_bind].
    destruct l' as [|y l'']; [reflexivity|].
    change (("," +:+ render_elems (y :: l'')) +:+ String "]" rest)
      with (String "," (render_elems (y :: l'') +:+ String "]" rest)).
    cbn [Ascii.eqb Bool.eqb].
    rewrite IHe; [reflexivity | congruence | lia].
  - intros [|[k x] fs'] rest Hl Hsize; [congruence|].
    rewrite render_fields_cons, append_assoc, quote_append, parse_fields_S.
    rewrite parse_chars_escape. cbn [mbind option_bind].
    change (fields_size ((k, x) :: fs')) with (S (json_size x + fields_size fs')) in Hsize.
    change ((":" +:+ render x +:+
             match fs' with [] => EmptyString | _ :: _ => "," +:+ render_fields fs' end)
            +:+ String "}" rest)
      with (String ":" ((render x +:+
             match fs' with [] => EmptyString | _ :: _ => "," +:+ render_fields fs' end)
            +:+ String "}" rest)).
    cbn [Ascii.eqb Bool.eqb]. rewrite append_assoc.
    rewrite IHv; [| lia | destruct fs'; reflexivity].
    cbn [mbind option_bind].
    destruct fs' as [|kx fs'']; [reflexivity|].
    change (("," +:+ render_fields (kx :: fs'')) +:+ String "}" rest)
      with (String "," (render_fields (kx :: fs'') +:+ String "}" rest)).
    cbn [Ascii.eqb Bool.eqb].
    rewrite IHf; [reflexivity | congruence | lia].
Qed.

(** Induction on documents and on values, through their lists *)
Fixpoint json_nested_ind (P : json -> Prop)
    (Hnull : P JNull) (Hbool : forall b, P (JBool b)) (Hnum : forall n, P (JNum n))
    (Hstr : forall s, P (JStr s))
    (Harr : forall l, Forall P l -> P (JArr l))
    (Hobj : forall fs, Forall (fun kx => P (snd kx)) fs -> P (JObj fs))
    (j : json) {struct j} : P j :=
  let rec := json_nested_ind P Hnull Hbool Hnum Hstr Harr Hobj in
  match j with
  | JNull => Hnull
  | JBool b => Hbool b
  | JNum n => Hnum n
  | JStr s => Hstr s
  | JArr l =>
      Harr l ((fix go (l : list json) : Forall P l :=
                 match l with
                 | [] => @List.Forall_nil _ P
                 | x :: l' => @List.Forall_cons _ P x l' (rec x) (go l')
                 end) l)
  | JObj fs =>
      Hobj fs ((fix go (fs : list (string * json)) : Forall (fun kx => P (snd kx)) fs :=
                  match fs with
                  | [] => @List.Forall_nil _ _
                  | kx :: fs' => @List.Forall_cons _ _ kx fs' (rec (snd kx)) (go fs')
                  end) fs)
  end.

Fixpoint value_nested_ind (P : value -> Prop)
    (Hleaf : forall v, match v with VArr _ | VObj _ => False | _ => True end -> P v)
    (Harr : forall xs, Forall P xs -> P (VArr xs))
    (Hobj : forall ps, Forall (fun kv => P (snd kv)) ps -> P (VObj ps))
    (v : value) {struct v} : P v :=
  let rec := value_nested_ind P Hleaf Harr Hobj in
  match v with
  | VArr xs =>
      Harr xs ((fix go (l : list value) : Forall P l :=
                  match l with
                  | [] => @List.Forall_nil _ P
                  | x :: l' => @List.Forall_cons _ P x l' (rec x) (go l')
                  end) xs)
  | VObj ps =>
      Hobj ps ((fix go (l : props) : Forall (fun kv => P (snd kv)) l :=
                  match l with
                  | [] => @List.Forall_nil _ _
                  | kv :: l' => @List.Forall_cons _ _ kv l' (rec (snd kv)) (go l')
                  end) ps)
  | VUndefined => Hleaf VUndefined I
  | VNull => Hleaf VNull I
  | VBool b => Hleaf (VBool b) I
  | VNum n => Hleaf (VNum n) I
  | VStr s => Hleaf (VStr s) I
  | VDate t => Hleaf (VDate t) I
  | VErr name message => Hleaf (VErr name message) I
  | VFun src => Hleaf (VFun src) I
  | VCircular => Hleaf VCircular I
  end.

Lemma json_size_le_length (j : json) : (json_size j <= String.length (render j))%nat.
Proof.
  induction j as [|b|n|s|l IH|fs IH] using json_nested_ind.
  - simpl. lia.
  - destruct b; simpl; lia.
  - simpl. unfold string_of_Z. destruct (n <? 0).
    + simpl. lia.
    + destruct (num_digits_pos n) as [w ->]. cbn [pad_digits].
      rewrite length_append. simpl. lia.
  - simpl. lia.
  - rewrite json_size_JArr, render_JArr.
    change ("[" +:+ render_elems l +:+ "]") with (String "[" (render_elems l +:+ "]")).
    cbn [String.length]. rewrite length_append. simpl String.length.
    assert (H : (elems_size l <= String.length (render_elems l) + 1)%nat).
    { induction IH as [|x l' Hx _ IHl]; [simpl; lia|].
      rewrite render_elems_cons, length_append.
      change (elems_size (x :: l')) with (S (json_size x + elems_size l')).
      destruct l' as [|y l'']; [simpl; lia|].
      change (String.length ("," +:+ render_elems (y :: l'')))
        with (S (String.length (render_elems (y :: l'')))).
      lia. }
    lia.
  - rewrite json_size_JObj, render_JObj.
    change ("{" +:+ render_fields fs +:+ "}") with (String "{" (render_fields fs +:+ "}")).
    cbn [String.length]. rewrite length_append. simpl String.length.
    assert (H : (fields_size fs <= String.length (render_fields fs) + 1)%nat).
    { induction IH as [|[k x] fs' Hx _ IHl]; [simpl; lia|].
      rewrite render_fields_cons, !length_append.
      change (fields_size ((k, x) :: fs')) with (S (json_size x + fields_size fs')).
      cbn [snd] in Hx.
      destruct fs' as [|kx fs'']; [simpl; lia|].
      change (String.length ("," +:+ render_fields (kx :: fs'')))
        with (S (String.length (render_fields (kx :: fs'')))).
      lia. }
    lia.
Qed.

(** [JSON.parse] reads back what [JSON.stringify] writes *)
Lemma JSON_parse_render (j : json) : JSON_parse (render j) = Some j.
Proof.
  unfold JSON_parse.
  destruct (parse_render_fuel (S (String.length (render j)))) as (Hv & _ & _).
  specialize (Hv j EmptyString).
  rewrite append_empty_r in Hv. rewrite Hv; [reflexivity | | exact I].
  pose proof (json_size_le_length j). lia.
Qed.

(** ** JSON: the members of an encoded object *)

Lemma to_json_VObj (ps : props) :
  to_json (VObj ps) = bind (to_json_fields ps) (fun fs => Ok (Some (JObj fs))).
Proof. reflexivity. Qed.

Lemma to_json_VArr (xs : list value) :
  to_json (VArr xs) = bind (to_json_elems xs) (fun js => Ok (Some (JArr js))).
Proof. reflexivity. Qed.

Lemma to_json_fields_cons (k : string) (x : value) (ps : props) :
  to_json_fields ((k, x) :: ps) =
  bind (to_json x) (fun j =>
  bind (to_json_fields ps) (fun fs =>
  Ok (match j with Some j => (k, j) :: fs | None => fs end))).
Proof. reflexivity. Qed.

Lemma prop_get_None_keys (k : string) (ps : props) :
  prop_get k ps = None <-> ~ In k (Object_keys ps).
Proof.
  unfold Object_keys. induction ps as [|[k0 v0] ps IH]; simpl.
  - split; [intros _ [] | reflexivity].
  - destruct (String.eqb k k0) eqn:E.
    + apply String.eqb_eq in E. split; [discriminate | intros H; exfalso; apply H; left; congruence].
    + apply String.eqb_neq in E. rewrite IH. split.
      * intros H [H'|H']; [congruence | contradiction].
      * intros H H'. apply H. right. exact H'.
Qed.

(** A member the object does not have is not in its encoding *)
Lemma json_field_absent (k : string) (ps : props) : forall fs,
  to_json_fields ps = Ok fs -> prop_get k ps = None -> json_field k fs = None.
Proof.
  induction ps as [|[k0 v0] ps IH]; intros fs Hfs Hk.
  - injection Hfs as <-. reflexivity.
  - rewrite to_json_fields_cons in Hfs.
    destruct (to_json v0) as [oj|]; [|discriminate].
    destruct (to_json_fields ps) as [fs'|] eqn:Hps; [|discriminate].
    cbn [bind] in Hfs. injection Hfs as <-.
    simpl in Hk. destruct (String.eqb k k0) eqn:E; [discriminate|].
    specialize (IH fs' eq_refl Hk).
    destruct oj as [j|]; [|exact IH]. simpl. rewrite IH, E. reflexivity.
Qed.

(** A member of an object whose keys are distinct is encoded from its value *)
Lemma json_field_present (k : string) (v : value) (ps : props) : forall fs,
  to_json_fields ps = Ok fs ->
  NoDup (Object_keys ps) ->
  prop_get k ps = Some v ->
  exists oj, to_json v = Ok oj /\ json_field k fs = oj.
Proof.
  induction ps as [|[k0 v0] ps IH]; intros fs Hfs Hnd Hk; [discriminate|].
  rewrite to_json_fields_cons in Hfs.
  destruct (to_json v0) as [oj|] eqn:Hv0; [|discriminate].
  destruct (to_json_fields ps) as [fs'|] eqn:Hps; [|discriminate].
  cbn [bind] in Hfs. injection Hfs as <-.
  apply NoDup_cons in Hnd. destruct Hnd as [Hnotin Hnd].
  simpl in Hk. destruct (String.eqb k k0) eqn:E.
  - apply String.eqb_eq in E. subst k0. injection Hk as <-.
    exists oj. split; [exact Hv0|].
    assert (Habs : json_field k fs' = None).
    { apply (json_field_absent k ps); [exact Hps|]. apply prop_get_None_keys.
      rewrite <- list_elem_of_In. exact Hnotin. }
    destruct oj as [j|]; [|exact Habs]. simpl. rewrite Habs, String.eqb_refl. reflexivity.
  - destruct (IH fs' eq_refl Hnd Hk) as (oj' & Hv & Hf).
    exists oj'. split; [exact Hv|].
    destruct oj as [j|]; [|exact Hf]. simpl. rewrite Hf, E. destruct oj'; reflexivity.
Qed.

(** Assignments keep the keys of an object distinct *)
Lemma keys_prop_replace k v ps : Object_keys (prop_replace k v ps) = Object_keys ps.
Proof.
  unfold Object_keys. induction ps as [|[k0 v0] ps IH]; simpl; [reflexivity|].
  destruct (String.eqb k k0); simpl; [reflexivity | rewrite IH; reflexivity].
Qed.

Lemma keys_prop_insert_index n k v ps :
  Object_keys (prop_insert_index n k v ps) ≡ₚ k :: Object_keys ps.
Proof.
  unfold Object_keys. induction ps as [|[k0 v0] ps IH]; simpl; [reflexivity|].
  destruct (array_index k0) as [n'|]; [destruct (n <? n')|]; simpl; try reflexivity.
  rewrite IH. apply Permutation_swap.
Qed.

Lemma NoDup_prop_set k v ps :
  NoDup (Object_keys ps) -> NoDup (Object_keys (prop_set k v ps)).
Proof.
  intros Hnd. unfold prop_set. destruct (prop_mem k ps) eqn:Hm.
  - rewrite keys_prop_replace. exact Hnd.
  - assert (Hk : ~ In k (Object_keys ps)).
    { apply prop_get_None_keys. unfold prop_mem in Hm.
      destruct (prop_get k ps); [discriminate | reflexivity]. }
    rewrite <- list_elem_of_In in Hk.
    destruct (array_index k) as [n|].
    + rewrite keys_prop_insert_index. apply NoDup_cons. split; assumption.
    + unfold Object_keys. rewrite map_app. simpl.
      apply NoDup_app. split; [exact Hnd|]. split.
      * intros x Hx Hx'. apply list_elem_of_singleton in Hx'. subst x. contradiction.
      * apply NoDup_singleton.
Qed.

Lemma NoDup_copy_props obj res :
  NoDup (Object_keys res) -> NoDup (Object_keys (copy_props obj res)).
Proof.
  unfold copy_props. generalize (Object_keys (enumerable_props obj)) as ks.
  intros ks. revert res. induction ks as [|a ks IH]; intros res Hnd; simpl; [exact Hnd|].
  apply IH, NoDup_prop_set, Hnd.
Qed.

(** The fallback encoder: [ensureProperties] leaves nothing circular *)
Lemma to_json_ensureProperties (v : value) : exists oj, to_json (ensureProperties v) = Ok oj.
Proof.
  induction v as [v Hv|xs IH|ps IH] using value_nested_ind.
  - destruct v; try contradiction; simpl; eauto.
  - cbn [ensureProperties]. rewrite to_json_VArr.
    assert (H : exists js, to_json_elems (map ensureProperties xs) = Ok js).
    { induction IH as [|x l (oj & Hx) _ (js & Hl)]; [simpl; eauto|].
      simpl. simpl in Hl. rewrite Hx, Hl. simpl. eauto. }
    destruct H as (js & ->). simpl. eauto.
  - cbn [ensureProperties]. rewrite to_json_VObj.
    assert (H : exists fs,
               to_json_fields (map (fun kv => (fst kv, ensureProperties (snd kv))) ps) = Ok fs).
    { induction IH as [|[k x] l (oj & Hx) _ (fs & Hl)]; [simpl; eauto|].
      cbn [map fst snd]. rewrite to_json_fields_cons. cbn [snd] in Hx.
      rewrite Hx, Hl. simpl. eauto. }
    destruct H as (fs & ->). simpl. eauto.
Qed.

Lemma keys_ensureProperties (ps : props) :
  Object_keys (map (fun kv => (fst kv, ensureProperties (snd kv))) ps) = Object_keys ps.
Proof.
  unfold Object_keys. rewrite map_map. reflexivity.
Qed.

Lemma prop_get_ensureProperties (k : string) (ps : props) :
  prop_get k (map (fun kv => (fst kv, ensureProperties (snd kv))) ps) =
  ensureProperties <$> prop_get k ps.
Proof.
  induction ps as [|[k0 v0] ps IH]; simpl; [reflexivity|].
  destruct (String.eqb k k0); [reflexivity | exact IH].
Qed.

(** The primary encoder fails on circular structures, and on no other *)
Lemma to_json_has_circular (v : value) :
  has_circular v = true <-> exists e, to_json v = Throw e.
Proof.
  induction v as [v Hv|xs IH|ps IH] using value_nested_ind.
  - destruct v; try contradiction; simpl;
      try (split; [discriminate | intros [e [=]]]).
    split; [eauto | reflexivity].
  - cbn [has_circular]. rewrite to_json_VArr.
    assert (H : existsb has_circular xs = true <-> exists e, to_json_elems xs = Throw e).
    { induction IH as [|x l Hx _ Hl]; simpl.
      - split; [discriminate | intros [e [=]]].
      - rewrite orb_true_iff, Hx, Hl.
        destruct (to_json x) as [oj|e]; simpl.
        + destruct (to_json_elems l) as [js|e']; simpl.
          * split; [intros [[e [=]]|[e [=]]] | intros [e [=]]].
          * split; eauto.
        + split; eauto. }
    rewrite H. destruct (to_json_elems xs); simpl.
    + split; intros [e [=]].
    + split; eauto.
  - cbn [has_circular]. rewrite to_json_VObj.
    assert (H : existsb (fun kv => has_circular (snd kv)) ps = true <->
                exists e, to_json_fields ps = Throw e).
    { induction IH as [|[k x] l Hx _ Hl].
      - simpl. split; [discriminate | intros [e [=]]].
      - cbn [existsb snd] in *. rewrite to_json_fields_cons.
        rewrite orb_true_iff, Hx, Hl.
        destruct (to_json x) as [oj|e]; simpl.
        + destruct (to_json_fields l) as [fs|e']; simpl.
          * split; [intros [[e [=]]|[e [=]]] | intros [e [=]]].
          * split; eauto.
        + split; eauto. }
    rewrite H. destruct (to_json_fields ps); simpl.
    + split; intros [e [=]].
    + split; eauto.
Qed.

(** ** The structured formatter *)

(** The object [formatJsonTrace.toObject] builds *)
Lemma toObject_props env level context message args err :
  exists log : props,
    formatJsonTrace_toObject env level context message args err = VObj log /\
    NoDup (Object_keys log) /\
    prop_get "msg" log = Some (VStr (util_format ([message] ++ args))) /\
    prop_get "err" log =
      Some (if truthy err
            then VObj (serr_toObject err (includes (stacktracesWith env) level))
            else err).
Proof.
  unfold formatJsonTrace_toObject. eexists. split; [reflexivity|].
  split; [|split].
  - repeat apply NoDup_prop_set. apply NoDup_copy_props. apply NoDup_nil_2.
  - rewrite prop_get_set. reflexivity.
  - rewrite !prop_get_set. reflexivity.
Qed.

(** What encoding an object gives, whichever encoder does it *)
Lemma stringify_object (log : props) :
  exists (fs : list (string * json)) (encoded : props),
    formatJsonTrace_stringify (VObj log) = Ok (VStr (render (JObj fs))) /\
    to_json_fields encoded = Ok fs /\
    (has_circular (VObj log) = false ->
     encoded = log /\ JSON_stringify (VObj log) = Ok (VStr (render (JObj fs)))) /\
    (has_circular (VObj log) = true ->
     encoded = map (fun kv => (fst kv, ensureProperties (snd kv))) log /\
     (exists e, JSON_stringify (VObj log) = Throw e) /\
     safeStringify (VObj log) = Ok (VStr (render (JObj fs)))).
Proof.
  unfold formatJsonTrace_stringify, safeStringify, JSON_stringify.
  destruct (has_circular (VObj log)) eqn:Hc.
  - apply to_json_has_circular in Hc. destruct Hc as [e He]. rewrite He.
    cbn [bind try_catch ensureProperties].
    destruct (to_json_ensureProperties (VObj log)) as [oj Hoj].
    cbn [ensureProperties] in Hoj. rewrite to_json_VObj in Hoj. rewrite to_json_VObj.
    destruct (to_json_fields (map (fun kv => (fst kv, ensureProperties (snd kv))) log))
      as [fs|e'] eqn:Hfs; [|discriminate].
    exists fs, (map (fun kv => (fst kv, ensureProperties (snd kv))) log).
    cbn [bind]. split; [reflexivity|]. split; [exact Hfs|].
    split; [discriminate|]. intros _. split; [reflexivity|]. split; [eauto | reflexivity].
  - assert (Hok : forall e, to_json (VObj log) <> Throw e).
    { intros e He. assert (Ht : has_circular (VObj log) = true)
        by (apply to_json_has_circular; eauto). congruence. }
    rewrite to_json_VObj in *.
    destruct (to_json_fields log) as [fs|e] eqn:Hfs; [|exfalso; apply (Hok e); reflexivity].
    exists fs, log. cbn [bind try_catch].
    split; [reflexivity|]. split; [exact Hfs|].
    split; [intros _; split; reflexivity | discriminate].
Qed.

(** The line of the structured formatter, decoded *)
Lemma formatJsonTrace_decoded env level context message args err :
  exists (text : string) (fs : list (string * json)),
    formatJsonTrace env level context message args err = Ok (VStr text) /\
    JSON_parse text = Some (JObj fs) /\
    json_field "msg" fs = Some (JStr (util_format ([message] ++ args))) /\
    (truthy err = true -> exists members, json_field "err" fs = Some (JObj members)) /\
    (err = VUndefined -> json_field "err" fs = None) /\
    (err = VNull -> json_field "err" fs = Some JNull).
Proof.
  unfold formatJsonTrace.
  destruct (toObject_props env level context message args err)
    as (log & -> & Hnd & Hmsg & Herr).
  destruct (stringify_object log) as (fs & encoded & Hs & Hfs & Hplain & Hsafe).
  exists (render (JObj fs)), fs.
  split; [exact Hs|]. split; [apply JSON_parse_render|].
  assert (Henc : NoDup (Object_keys encoded) /\
                 exists f : value -> value,
                   (forall k, prop_get k encoded = f <$> prop_get k log) /\
                   (forall s, f (VStr s) = VStr s) /\ f VUndefined = VUndefined /\
                   f VNull = VNull /\
                   (forall ps, exists ps', f (VObj ps) = VObj ps')).
  { destruct (has_circular (VObj log)).
    - destruct (Hsafe eq_refl) as (-> & _). split.
      + rewrite keys_ensureProperties. exact Hnd.
      + exists ensureProperties. split; [intros k; apply prop_get_ensureProperties|].
        repeat split. intros ps. eexists. reflexivity.
    - destruct (Hplain eq_refl) as (-> & _). split; [exact Hnd|].
      exists (fun v => v). split; [intros k; destruct (prop_get k log); reflexivity|].
      repeat split. intros ps. eexists. reflexivity. }
  destruct Henc as (Hnd' & f & Hget & Hstr & Hundef & Hnull & Hobj).
  split; [|split; [|split]].
  - destruct (json_field_present "msg" (VStr (util_format ([message] ++ args))) encoded fs
                Hfs Hnd') as (oj & Hoj & ->).
    + rewrite Hget, Hmsg. simpl. rewrite Hstr. reflexivity.
    + injection Hoj as <-. reflexivity.
  - intros Ht. rewrite Ht in Herr.
    destruct (Hobj (serr_toObject err (includes (stacktracesWith env) level))) as [ps' Hps'].
    destruct (json_field_present "err" (VObj ps') encoded fs Hfs Hnd') as (oj & Hoj & ->).
    + rewrite Hget, Herr. simpl. rewrite Hps'. reflexivity.
    + rewrite to_json_VObj in Hoj. destruct (to_json_fields ps') as [members|]; [|discriminate].
      injection Hoj as <-. eauto.
  - intros ->. cbn [truthy] in Herr.
    destruct (json_field_present "err" VUndefined encoded fs Hfs Hnd') as (oj & Hoj & ->).
    + rewrite Hget, Herr. simpl. rewrite Hundef. reflexivity.
    + injection Hoj as <-. reflexivity.
  - intros ->. cbn [truthy] in Herr.
    destruct (json_field_present "err" VNull encoded fs Hfs Hnd') as (oj & Hoj & ->).
    + rewrite Hget, Herr. simpl. rewrite Hnull. reflexivity.
    + injection Hoj as <-. reflexivity.
Qed.

Lemma strict_eq_string_spec (v : value) (s : string) :
  strict_eq_string v s = true <-> v = VStr s.
Proof.
  destruct v; simpl; try (split; [discriminate | intros [=]]).
  rewrite String.eqb_eq. split; [intros ->; reflexivity | intros [= ->]; reflexivity].
Qed.

(** C9, as the code has it.  The delimited formatter appends the cause
    as a trailing value unless the message is a string strictly equal
    to the cause converted to a string.  With [info(new Error('foo'))]
    the message is that string, so the cause is not appended and the
    line ends in [msg=Error: foo]. *)
Theorem formatTrace_appends_cause (env : fmt_env) (level : string)
    (context message : value) (args : list value) (name text : string) :
  let err := VErr name text in
  let str := VStr (formatTrace_str (formatTrace_recontext env level context message)) in
  (message = VStr (to_string err) ->
   formatTrace_args env level context message args err = str :: args) /\
  (message <> VStr (to_string err) ->
   formatTrace_args env level context message args err = str :: args ++ [err]) /\
  formatTrace_args env level context message args VUndefined = str :: args /\
  rec_message (resolve context [VErr "Error" "foo"]) = VStr (to_string (VErr "Error" "foo")) /\
  formatTrace (default_env 0) "INFO" (VObj []) (VStr "Error: foo") [] (VErr "Error" "foo") =
    Ok (VStr (epoch_line "Error: foo")) /\
  (forall (API : logger) (st : store) self fuel,
     st !! self = Some API ->
     API_format API = formatTrace ->
     API_getContext API = user_getter (VObj []) ->
     log "INFO" (S fuel) (default_env 0) st self [VErr "Error" "foo"] =
     Some ([EvFormat "INFO" (VObj []) (VStr "Error: foo") [] (VErr "Error" "foo");
            EvWrite (API_stream API) (epoch_line "Error: foo" +:+ LF)], Ok tt)).
Proof.
  cbv zeta. split; [|split; [|split; [|split; [|split]]]].
  - intros ->. unfold formatTrace_args. cbn [truthy andb].
    replace (strict_eq_string (VStr (to_string (VErr name text))) (to_string (VErr name text)))
      with true by (symmetry; apply strict_eq_string_spec; reflexivity).
    reflexivity.
  - intros Hne. unfold formatTrace_args. cbn [truthy andb].
    destruct (strict_eq_string message (to_string (VErr name text))) eqn:E.
    + apply strict_eq_string_spec in E. contradiction.
    + reflexivity.
  - reflexivity.
  - reflexivity.
  - apply formatTrace_epoch_error.
  - intros API st self fuel Hself Hformat Hctx.
    rewrite (log_user_getter API st self (VObj []) "INFO" fuel _ _ Hself Hctx).
    rewrite Hformat.
    change (resolve (VObj []) [VErr "Error" "foo"])
      with {| rec_context := VObj []; rec_message := VStr "Error: foo";
              rec_args := []; rec_err := VErr "Error" "foo" |}.
    cbv zeta. cbn [rec_context rec_message rec_args rec_err js_or truthy].
    rewrite formatTrace_epoch_error. reflexivity.
Qed.




(** C8. A call without arguments has the message [undefined], and each
    formatter writes it as the text [undefined]: the delimited one in
    the field [msg=undefined], the structured one in the member [msg],
    the human one after the level.  With an empty context at the epoch,
    [info()] through the delimited formatter writes the line that ends
    in [msg=undefined]. *)
Theorem undefined_message_rendered (env : fmt_env) (level : string) (context ambient : value) :
  rec_message (resolve ambient []) = VUndefined /\
  rec_args (resolve ambient []) = [] /\
  (let recontext := formatTrace_recontext env level context VUndefined in
   In "msg" (Object_keys recontext) /\
   "msg" +:+ "=" +:+ to_string (get (VObj recontext) "msg") = "msg=undefined") /\
  (exists (line : string) (decoded : json),
     formatJsonTrace env level context VUndefined [] VUndefined = Ok (VStr line) /\
     JSON_parse line = Some decoded /\
     json_get decoded "msg" = Some (JStr "undefined")) /\
  formatDevTrace env level context VUndefined [] VUndefined =
    Ok (VStr (reindent
      (to_string (level_token level) +:+ " " +:+ "undefined" +:+
       (if (0 <? length (Object_keys (lodash_omit context (omit env))))%nat
        then " " +:+ colorize (chalk gray) (util_inspect (VObj (lodash_omit context (omit env))))
        else EmptyString)))) /\
  formatTrace (default_env 0) "INFO" (VObj []) VUndefined [] VUndefined =
    Ok (VStr (epoch_line "undefined")) /\
  (forall (API : logger) (st : store) self fuel,
     st !! self = Some API ->
     API_format API = formatTrace ->
     API_getContext API = user_getter (VObj []) ->
     log "INFO" (S fuel) (default_env 0) st self [] =
     Some ([EvFormat "INFO" (VObj []) VUndefined [] VUndefined;
            EvWrite (API_stream API) (epoch_line "undefined" +:+ LF)], Ok tt)).
Proof.
  split; [reflexivity|]. split; [reflexivity|].
  split; [|split; [|split; [|split]]].
  - cbv zeta.
    pose proof (formatTrace_recontext_msg env level context VUndefined eq_refl) as Hmsg.
    split; [eapply prop_get_In_keys; exact Hmsg|].
    cbn [get enumerable_props]. rewrite Hmsg. reflexivity.
  - destruct (formatJsonTrace_decoded env level context VUndefined [] VUndefined)
      as (line & fs & Hline & Hparse & Hmsg & _).
    exists line, (JObj fs). split; [exact Hline|]. split; [exact Hparse|].
    cbn [json_get]. rewrite Hmsg. cbn [app]. rewrite util_format_undefined. reflexivity.
  - unfold formatDevTrace. cbn [app truthy strict_eq_string].
    rewrite util_format_undefined. rewrite append_assoc. reflexivity.
  - apply formatTrace_epoch_undefined.
  - intros API st self fuel Hself Hformat Hctx.
    rewrite (log_user_getter API st self (VObj []) "INFO" fuel _ _ Hself Hctx).
    rewrite Hformat.
    change (resolve (VObj []) [])
      with {| rec_context := VObj []; rec_message := VUndefined;
              rec_args := []; rec_err := VUndefined |}.
    cbv zeta. cbn [rec_context rec_message rec_args rec_err js_or truthy].
    rewrite formatTrace_epoch_undefined. reflexivity.
Qed.

(** * Further properties *)

(** ** The call resolver: the other two shapes *)

(** X1. A call whose first argument is [undefined], [null], not an
    object, or an array is a call with a message: the first argument is
    the message, the others are the arguments, the context is the
    ambient one and there is no cause. *)
Theorem resolve_message_first (ambient first : value) (rest : list value) :
  typeof first <> TObject \/ first = VNull \/ Array_isArray first = true ->
  classify (first :: rest) = MessageLed /\
  resolve ambient (first :: rest) =
    {| rec_context := ambient; rec_message := first; rec_args := rest;
       rec_err := VUndefined |}.
Proof.
  intros [H|[H|H]]; destruct first; simpl in H; try discriminate; try congruence;
    split; reflexivity.
Qed.


(** ** [setLevel]: what it rejects and how levels are ordered *)

(** X3. [setLevel] with a value that is not a string and has no
    [toUpperCase] of its own throws a TypeError after it has stored the
    value: [getLevel()] returns the rejected value, while the level
    functions, the formatter, the stream and the context getter stay
    as the last successful call left them. *)
Theorem setLevel_rejects_non_string (level : value) (API : logger) :
  (forall s, level <> VStr s) ->
  is_function (get level "toUpperCase") = false ->
  let API' := fst (setLevel level API) in
  (exists msg, snd (setLevel level API) = Throw (TypeError msg)) /\
  getLevel API' = level /\
  API_methods API' = API_methods API /\
  API_format API' = API_format API /\
  API_stream API' = API_stream API /\
  API_getContext API' = API_getContext API.
Proof.
  intros Hns _. cbv zeta.
  destruct level; try (split; [eexists; reflexivity | repeat split]).
  exfalso. apply (Hns s). reflexivity.
Qed.

Lemma indexOf_levels_range (x : string) : -1 <= indexOf levels x <= 4.
Proof.
  unfold indexOf, levels. cbn [indexOf_from].
  repeat (destruct (String.eqb _ x); [simpl; lia|]). lia.
Qed.

Lemma logWrap_bound_iff (i : Z) (S : string) :
  bound_fn i S = logWrap S <-> i <= indexOf levels S.
Proof.
  unfold bound_fn. destruct (i <=? indexOf levels S) eqn:E.
  - apply Z.leb_le in E. split; [intros _; exact E | reflexivity].
  - apply Z.leb_gt in E. split; [discriminate | lia].
Qed.

(** X4. The level is a threshold.  Whatever string [setLevel] is given,
    [fatal] logs; a severity that logs has every higher severity
    logging too; and a severity that is a no-op has every lower
    severity a no-op. *)
Theorem setLevel_is_threshold (API : logger) (name S S' : string) :
  let API' := fst (setLevel (VStr name) API) in
  method_get "fatal" (API_methods API') = Some (logWrap "FATAL") /\
  (In S levels -> In S' levels ->
   indexOf levels S <= indexOf levels S' ->
   (method_get (toLowerCase S) (API_methods API') = Some (logWrap S) ->
    method_get (toLowerCase S') (API_methods API') = Some (logWrap S')) /\
   (method_get (toLowerCase S') (API_methods API') = Some noop ->
    method_get (toLowerCase S) (API_methods API') = Some noop)).
Proof.
  cbv zeta.
  destruct (setLevel_string name API) as (_ & _ & _ & _ & _ & Hfn).
  pose proof (indexOf_levels_range (toUpperCase name)) as Hrange.
  split.
  - change "fatal" with (toLowerCase "FATAL").
    rewrite Hfn by (cbn; tauto).
    f_equal. apply logWrap_bound_iff. change (indexOf levels "FATAL") with 4. lia.
  - intros HS HS' Hle. rewrite (Hfn S HS), (Hfn S' HS'). unfold bound_fn.
    destruct (indexOf levels (toUpperCase name) <=? indexOf levels S) eqn:E;
      destruct (indexOf levels (toUpperCase name) <=? indexOf levels S') eqn:E';
      split; try discriminate; try reflexivity.
    + apply Z.leb_le in E. apply Z.leb_gt in E'. lia.
    + apply Z.leb_le in E. apply Z.leb_gt in E'. lia.
Qed.

Lemma methods_fold_set_method (f : string -> level_fn) (ks : list string) : forall API,
  API_methods (fold_left (fun API k => set_method (toLowerCase k) (f k) API) ks API) =
  fold_left (fun ms k => method_set (toLowerCase k) (f k) ms) ks (API_methods API).
Proof.
  induction ks as [|k ks IH]; intros API; simpl; [reflexivity|].
  rewrite IH. reflexivity.
Qed.

Lemma find_append {A} (p : A -> bool) (l1 l2 : list A) :
  find p (l1 ++ l2) = match find p l1 with Some x => Some x | None => find p l2 end.
Proof.
  induction l1 as [|x l1 IH]; simpl; [reflexivity|].
  destruct (p x); [reflexivity | exact IH].
Qed.

Lemma method_get_fold_set (f : string -> level_fn) (fn_name : string) (ks : list string) :
  forall ms,
  method_get fn_name (fold_left (fun ms k => method_set (toLowerCase k) (f k) ms) ks ms) =
  match find (fun k => String.eqb fn_name (toLowerCase k)) (rev ks) with
  | Some k => Some (f k)
  | None => method_get fn_name ms
  end.
Proof.
  induction ks as [|k ks IH]; intros ms; [reflexivity|].
  cbn [fold_left rev]. rewrite IH, find_append.
  destruct (find _ (rev ks)) as [k'|]; [reflexivity|].
  cbn [find]. rewrite method_get_set.
  destruct (String.eqb fn_name (toLowerCase k)); reflexivity.
Qed.

(** The level functions after [setLevel] with a string *)
Lemma setLevel_methods (name fn_name : string) (API : logger) :
  method_get fn_name (API_methods (fst (setLevel (VStr name) API))) =
  match find (fun k => String.eqb fn_name (toLowerCase k)) (rev levels) with
  | Some k => Some (bound_fn (indexOf levels (toUpperCase name)) k)
  | None => method_get fn_name (API_methods API)
  end.
Proof.
  unfold setLevel. cbn [fst]. cbv zeta.
  change (fun (API0 : logger) (logLevel : string) =>
            set_method (toLowerCase logLevel)
              (if indexOf levels (toUpperCase name) <=? indexOf levels logLevel
               then logWrap logLevel else noop) API0)
    with (fun (API0 : logger) (k : string) =>
            set_method (toLowerCase k) (bound_fn (indexOf levels (toUpperCase name)) k) API0).
  rewrite (methods_fold_set_method (bound_fn (indexOf levels (toUpperCase name)))).
  apply method_get_fold_set.
Qed.

(** X5. The last [setLevel] decides.  After [setLevel(name)] the level,
    every level function and the rest of the instance are what
    [setLevel(name)] alone gives, whatever an earlier [setLevel] was
    given and whether or not it threw. *)
Theorem setLevel_last_wins (earlier : value) (name : string) (API : logger) :
  let twice := fst (setLevel (VStr name) (fst (setLevel earlier API))) in
  let once := fst (setLevel (VStr name) API) in
  getLevel twice = getLevel once /\
  API_format twice = API_format once /\
  API_stream twice = API_stream once /\
  API_getContext twice = API_getContext once /\
  forall fn_name, method_get fn_name (API_methods twice) = method_get fn_name (API_methods once).
Proof.
  cbv zeta.
  destruct (setLevel_string name (fst (setLevel earlier API))) as (_ & H1 & H2 & H3 & H4 & _).
  destruct (setLevel_string name API) as (_ & G1 & G2 & G3 & G4 & _).
  assert (Hfields : API_stream (fst (setLevel earlier API)) = API_stream API /\
                    API_format (fst (setLevel earlier API)) = API_format API /\
                    API_getContext (fst (setLevel earlier API)) = API_getContext API).
  { destruct earlier; repeat split. }
  destruct Hfields as (F1 & F2 & F3).
  unfold getLevel. rewrite H1, H2, H3, H4, G1, G2, G3, G4.
  repeat split; try assumption.
  intros fn_name. rewrite !setLevel_methods.
  destruct (find _ (rev levels)) as [k|] eqn:E; [reflexivity|].
  destruct earlier; try reflexivity.
  rewrite setLevel_methods, E. reflexivity.
Qed.

(** ** Level calls: what they write *)

Lemma js_or_object_truthy (v : value) : truthy (js_or v (VObj [])) = true.
Proof. unfold js_or. destruct (truthy v) eqn:E; [exact E | reflexivity]. Qed.


(** X6. A call of a level function writes at most once, and then to
    the stream of its instance a chunk that is the formatter's result
    followed by a line feed.  It invokes the formatter at most once,
    with a context that is never [undefined] or [null]; when the
    formatter throws, nothing is written and the exception reaches the
    caller. *)
Theorem call_writes_at_most_once (name : string) (fuel : nat) (env : fmt_env)
    (st : store) (self : nat) (arguments : list value) (API : logger)
    (events : list event) (outcome : result unit) :
  st !! self = Some API ->
  call name fuel env st self arguments = Some (events, outcome) ->
  events = [] \/
  exists level context message args err,
    truthy context = true /\
    ((exists e,
        API_format API env level context message args err = Throw e /\
        events = [EvFormat level context message args err] /\ outcome = Throw e) \/
     (exists trace,
        API_format API env level context message args err = Ok trace /\
        events = [EvFormat level context message args err;
                  EvWrite (API_stream API) (to_string trace +:+ LF)] /\
        outcome = Ok tt)).
Proof.
  intros Hself. unfold call. rewrite Hself. cbn [mbind option_bind].
  destruct (method_get name (API_methods API)) as [[|level]|].
  - intros [= <- <-]. left. reflexivity.
  - unfold log. rewrite Hself. cbn [mbind option_bind].
    destruct (call_getter fuel st (API_getContext API)) as [ambient|]; [|discriminate].
    cbn [mbind option_bind]. cbv zeta.
    set (r := resolve ambient arguments).
    intros Hcall. right.
    exists level, (js_or (rec_context r) (VObj [])), (rec_message r), (rec_args r), (rec_err r).
    split; [apply js_or_object_truthy|].
    destruct (API_format API env level _ _ _ _) as [trace|e].
    + right. exists trace. injection Hcall as <- <-. repeat split.
    + left. exists e. injection Hcall as <- <-. repeat split.
  - intros [= <- <-]. left. reflexivity.
Qed.

(** The logging closure, once the context getter has returned *)
Lemma log_with_context (level : string) (env : fmt_env) (st : store) (self : nat)
    (arguments : list value) (API : logger) (ambient : value) :
  st !! self = Some API ->
  getter_returns st (API_getContext API) ambient ->
  exists fuel0, forall fuel, (fuel0 <= fuel)%nat ->
    log level fuel env st self arguments =
    let r := resolve ambient arguments in
    let context := js_or (rec_context r) (VObj []) in
    match API_format API env level context (rec_message r) (rec_args r) (rec_err r) with
    | Ok trace =>
        Some ([EvFormat level context (rec_message r) (rec_args r) (rec_err r);
               EvWrite (API_stream API) (to_string trace +:+ LF)], Ok tt)
    | Throw e =>
        Some ([EvFormat level context (rec_message r) (rec_args r) (rec_err r)], Throw e)
    end.
Proof.
  intros Hself Hret. apply getter_returns_fuel in Hret. destruct Hret as [fuel0 Hfuel0].
  exists fuel0. intros fuel Hle. unfold log. rewrite Hself. cbn [mbind option_bind].
  rewrite (call_getter_mono st fuel0 fuel _ _ Hfuel0 Hle). reflexivity.
Qed.



(** ** Children of children, and what breaks a child *)




(** X9. A [setLevel] that threw leaves the instance unable to have
    children: [child] hands the stored level to [logops], whose
    [setLevel] throws the same TypeError, and no instance is created. *)
Theorem child_after_failed_setLevel (penv : process_env) (st st' : store) (P : nat)
    (level c : value) (e : exn) :
  is_function (get level "toUpperCase") = false ->
  on_logger st P (setLevel level) = Some (st', Throw e) ->
  child penv st' P c = Some (st', Throw e).
Proof.
  intros _ Hon. unfold on_logger in Hon.
  destruct (st !! P) as [API|] eqn:HP; [|discriminate]. cbn [mbind option_bind] in Hon.
  destruct (setLevel level API) as [API' r] eqn:Hset.
  injection Hon as <- ->.
  assert (Hlt : (P < length st)%nat) by (eapply lookup_lt_Some; eassumption).
  unfold child. rewrite list_lookup_insert_eq by exact Hlt. cbn [mbind option_bind].
  unfold create. rewrite logops_with_options.
  destruct level; try (injection Hset as <- <-; reflexivity).
  exfalso. pose proof (setLevel_string s API) as (Hok & _).
  rewrite Hset in Hok. discriminate.
Qed.

(** X10. A parent that is given the context getter of its own child
    has a getter that calls itself: neither getter returns a context
    any more, and no level call that is not a no-op completes (in Node
    the recursion ends in a stack overflow). *)
Theorem getter_cycle_never_returns (st st' : store) (P C : nat) (kid : logger)
    (c : value) (r : result unit) :
  st !! C = Some kid ->
  C <> P ->
  API_getContext kid = child_getter P c ->
  on_logger st P (setContextGetter (API_getContext kid)) = Some (st', r) ->
  (forall v, ~ getter_returns st' (child_getter P c) v) /\
  (forall self level fuel env arguments,
     self = P \/ self = C ->
     log level fuel env st' self arguments = None).
Proof.
  intros HC Hne Hkid Hon.
  assert (HP : exists API, st !! P = Some API).
  { unfold on_logger in Hon. destruct (st !! P) as [API|]; [eauto | discriminate]. }
  destruct HP as [API HP].
  destruct (on_logger_lookup _ _ _ _ _ _ HP Hon) as [-> _].
  assert (Hlt : (P < length st)%nat) by (eapply lookup_lt_Some; eassumption).
  set (API' := fst (setContextGetter (API_getContext kid) API)).
  assert (HP' : <[P := API']> st !! P = Some API')
    by (apply list_lookup_insert_eq; exact Hlt).
  assert (HC' : <[P := API']> st !! C = Some kid)
    by (rewrite list_lookup_insert_ne by congruence; exact HC).
  assert (Hg : API_getContext API' = child_getter P c) by exact Hkid.
  assert (Hnone : forall fuel, call_getter fuel (<[P := API']> st) (child_getter P c) = None).
  { induction fuel as [|n IH]; [reflexivity|].
    cbn [call_getter]. rewrite HP'. cbn [mbind option_bind]. rewrite Hg, IH. reflexivity. }
  split.
  - intros v Hret. apply getter_returns_fuel in Hret. destruct Hret as [fuel Hfuel].
    rewrite Hnone in Hfuel. discriminate.
  - intros self level fuel env arguments [-> | ->]; unfold log.
    + rewrite HP'. cbn [mbind option_bind]. rewrite Hg, Hnone. reflexivity.
    + rewrite HC'. cbn [mbind option_bind]. rewrite Hkid, Hnone. reflexivity.
Qed.

(** ** [merge]: composition and the order of the keys *)






(** ** The delimited formatter: its fields *)











(** ** The human formatter: lines and indentation *)

Lemma indented_step (c : ascii) (s : string) :
  Ascii.eqb c (ascii_of_nat 10) = false -> indented (String c s) = indented s.
Proof. intros H. cbn [indented]. rewrite H. reflexivity. Qed.

Lemma indented_break (s : string) :
  indented (LF +:+ "      " +:+ s) = indented s.
Proof. reflexivity. Qed.

Lemma reindent_indented_bounded (n : nat) : forall s,
  (String.length s <= n)%nat -> indented (reindent s) = true.
Proof.
  induction n as [|n IH]; intros s Hlen.
  - destruct s; [reflexivity | simpl in Hlen; lia].
  - destruct s as [|c s]; [reflexivity|]. simpl in Hlen.
    cbn [reindent]. destruct (Ascii.eqb c (ascii_of_nat 10)) eqn:Hlf.
    + rewrite indented_break. apply IH. lia.
    + destruct (Ascii.eqb c (ascii_of_nat 13)) eqn:Hcr.
      * destruct s as [|c' s'].
        -- rewrite indented_step by exact Hlf. reflexivity.
        -- destruct (Ascii.eqb c' (ascii_of_nat 10)) eqn:Hlf'.
           ++ rewrite indented_break. apply IH. simpl in Hlen. lia.
           ++ rewrite indented_step by exact Hlf. apply IH. lia.
      * rewrite indented_step by exact Hlf. apply IH. lia.
Qed.

Lemma reindent_no_line_feed (s : string) : no_line_feed s = true -> reindent s = s.
Proof.
  induction s as [|c s IH]; [reflexivity|]. cbn [no_line_feed reindent].
  intros H. apply andb_true_iff in H. destruct H as [Hc Hs].
  apply negb_true_iff in Hc. rewrite Hc.
  destruct (Ascii.eqb c (ascii_of_nat 13)); [|rewrite IH by exact Hs; reflexivity].
  destruct s as [|c' s']; [reflexivity|].
  cbn [no_line_feed] in Hs. apply andb_true_iff in Hs. destruct Hs as [Hc' Hs'].
  apply negb_true_iff in Hc'. rewrite Hc'. rewrite IH; [reflexivity|].
  cbn [no_line_feed]. rewrite Hc', Hs'. reflexivity.
Qed.

(** X15. Whatever it is given, the human formatter returns a text in
    which every line break is a line feed followed by six spaces, the
    width of the level and the space after it; a text that has no line
    feed goes through the re-indentation unchanged. *)
Theorem formatDevTrace_indented (env : fmt_env) (level : string) (context message : value)
    (args : list value) (err : value) :
  (exists text, formatDevTrace env level context message args err = Ok (VStr text) /\
                indented text = true) /\
  (forall s, indented (reindent s) = true) /\
  (forall s, no_line_feed s = true -> reindent s = s).
Proof.
  split; [|split].
  - unfold formatDevTrace. eexists. split; [reflexivity|].
    eapply reindent_indented_bounded. reflexivity.
  - intros s. eapply reindent_indented_bounded. reflexivity.
  - apply reindent_no_line_feed.
Qed.

Lemma split_lines_nonempty (s : string) : split_lines s <> [].
Proof.
  destruct s as [|c s]; [discriminate|]. cbn [split_lines].
  destruct (Ascii.eqb c (ascii_of_nat 10)); [discriminate|].
  destruct (split_lines s); discriminate.
Qed.

Lemma join_split_lines (s : string) : join LF (split_lines s) = s.
Proof.
  induction s as [|c s IH]; [reflexivity|]. cbn [split_lines].
  destruct (Ascii.eqb c (ascii_of_nat 10)) eqn:Hc.
  - apply Ascii.eqb_eq in Hc. subst c.
    pose proof (split_lines_nonempty s) as Hne.
    destruct (split_lines s) as [|l ls]; [congruence|].
    change (join LF (EmptyString :: l :: ls)) with (LF +:+ join LF (l :: ls)).
    rewrite IH. reflexivity.
  - pose proof (split_lines_nonempty s) as Hne.
    destruct (split_lines s) as [|l ls]; [congruence|].
    destruct ls as [|l' ls'].
    + simpl in IH. simpl. rewrite IH. reflexivity.
    + change (join LF (String c l :: l' :: ls')) with (String c (l +:+ LF +:+ join LF (l' :: ls'))).
      change (join LF (l :: l' :: ls')) with (l +:+ LF +:+ join LF (l' :: ls')) in IH.
      rewrite IH. reflexivity.
Qed.

Lemma split_lines_no_line_feed (s : string) : no_line_feed s = true -> split_lines s = [s].
Proof.
  induction s as [|c s IH]; [reflexivity|]. cbn [no_line_feed split_lines].
  intros H. apply andb_true_iff in H. destruct H as [Hc Hs].
  apply negb_true_iff in Hc. rewrite Hc, (IH Hs). reflexivity.
Qed.

Lemma split_lines_append (a b : string) :
  no_line_feed a = true -> split_lines (a +:+ LF +:+ b) = a :: split_lines b.
Proof.
  induction a as [|c a IH]; intros H.
  - reflexivity.
  - cbn [no_line_feed] in H. apply andb_true_iff in H. destruct H as [Hc Ha].
    apply negb_true_iff in Hc.
    change (String c a +:+ LF +:+ b) with (String c (a +:+ LF +:+ b)).
    cbn [split_lines]. rewrite Hc, (IH Ha). reflexivity.
Qed.

Lemma split_lines_join (parts : list string) :
  parts <> [] ->
  Forall (fun part => no_line_feed part = true) parts ->
  split_lines (join LF parts) = parts.
Proof.
  induction parts as [|a parts IH]; [congruence|]. intros _ Hall.
  inversion Hall as [|? ? Ha Hparts]; subst.
  destruct parts as [|b parts].
  - apply split_lines_no_line_feed. exact Ha.
  - change (join LF (a :: b :: parts)) with (a +:+ LF +:+ join LF (b :: parts)).
    rewrite split_lines_append by exact Ha. rewrite IH; [reflexivity | congruence | exact Hparts].
Qed.

Lemma split_lines_no_feed (s : string) :
  Forall (fun part => no_line_feed part = true) (split_lines s).
Proof.
  induction s as [|c s IH]; [repeat constructor|]. cbn [split_lines].
  destruct (Ascii.eqb c (ascii_of_nat 10)) eqn:Hc; [constructor; [reflexivity | exact IH]|].
  pose proof (split_lines_nonempty s) as Hne.
  destruct (split_lines s) as [|l ls]; [congruence|].
  inversion IH as [|? ? Hl Hls]; subst. constructor; [|exact Hls].
  cbn [no_line_feed]. rewrite Hc, Hl. reflexivity.
Qed.

(** X16. [colorize] works line by line.  Splitting at the line feeds
    and joining with line feeds gives the text back, so with a colour
    that changes nothing [colorize] changes nothing; with a colour
    that adds no line feed, the lines of the result are the coloured
    lines of the text, as many as before. *)
Theorem colorize_by_line (color : string -> string) (str : string) :
  join LF (split_lines str) = str /\
  colorize (fun part => part) str = str /\
  ((forall part, no_line_feed part = true -> no_line_feed (color part) = true) ->
   split_lines (colorize color str) = map color (split_lines str)).
Proof.
  split; [apply join_split_lines|]. split.
  - unfold colorize. rewrite map_id. apply join_split_lines.
  - intros Hcolor. unfold colorize. apply split_lines_join.
    + pose proof (split_lines_nonempty str). destruct (split_lines str); [congruence|discriminate].
    + pose proof (split_lines_no_feed str) as Hparts.
      induction Hparts as [|part parts Hpart _ IH]; [constructor|].
      constructor; [apply Hcolor, Hpart | exact IH].
Qed.

Lemma substr_append (a b : string) : substr (a +:+ b) (String.length a) = b.
Proof. induction a as [|c a IH]; [destruct b; reflexivity | exact IH]. Qed.

(** X17. An error logged alone is printed once by the human formatter.
    When the message is the error's name, a colon and its message, as
    it is after [log.<level>(err)], the line is the level, the message
    and what the serialized error has after that text; with any other
    message the whole serialized error follows on a line of its own. *)
Theorem formatDevTrace_error_once (env : fmt_env) (level : string) (context message : value)
    (args : list value) (name text rest : string) :
  let err := VErr name text in
  let summary := name +:+ ": " +:+ text in
  let printStack := includes (stacktracesWith env) level in
  let context_part :=
    if (0 <? length (Object_keys (lodash_omit context (omit env))))%nat
    then " " +:+ colorize (chalk gray) (util_inspect (VObj (lodash_omit context (omit env))))
    else EmptyString in
  (util_format ([message] ++ args) = summary ->
   serr_toString err printStack = summary +:+ rest ->
   formatDevTrace env level context message args err =
   Ok (VStr (reindent ((to_string (level_token level) +:+ " " +:+ summary
                        +:+ colorize (chalk gray) rest) +:+ context_part)))) /\
  (util_format ([message] ++ args) <> summary ->
   formatDevTrace env level context message args err =
   Ok (VStr (reindent ((to_string (level_token level) +:+ " " +:+ util_format ([message] ++ args)
                        +:+ LF +:+ colorize (chalk gray) (serr_toString err printStack))
                       +:+ context_part)))).
Proof.
  cbv zeta. split.
  - intros Hmain Hserr. unfold formatDevTrace. cbn [truthy].
    rewrite Hmain, Hserr.
    change (string_plus (string_plus (get (VErr name text) "name") (VStr ": "))
              (get (VErr name text) "message"))
      with (VStr ((name +:+ ": ") +:+ text)).
    rewrite append_assoc. cbn [strict_eq_string]. rewrite String.eqb_refl.
    rewrite substr_append, !append_assoc. reflexivity.
  - intros Hmain. unfold formatDevTrace. cbn [truthy].
    change (string_plus (string_plus (get (VErr name text) "name") (VStr ": "))
              (get (VErr name text) "message"))
      with (VStr ((name +:+ ": ") +:+ text)).
    rewrite append_assoc. cbn [strict_eq_string].
    destruct (String.eqb (name +:+ ": " +:+ text) (util_format ([message] ++ args))) eqn:E.
    + apply String.eqb_eq in E. congruence.
    + rewrite !append_assoc. reflexivity.
Qed.

(** ** The structured formatter: one line, reserved members, any value *)

Lemma no_line_feed_append (a b : string) :
  no_line_feed (a +:+ b) = (no_line_feed a && no_line_feed b)%bool.
Proof.
  induction a as [|c a IH]; [reflexivity|].
  change (String c a +:+ b) with (String c (a +:+ b)). cbn [no_line_feed].
  rewrite IH, andb_assoc. reflexivity.
Qed.














(** ** Settings are read at the time of the call *)

(** X21. [setFormat] and [setStream] take effect on the level functions
    that are already bound: they leave every level function as it is,
    and a call of a logging function made afterwards invokes the new
    formatter and writes to the new stream. *)
Theorem setters_are_late_bound (API : logger) (format : formatter) (stream : sink)
    (name level : string) :
  let API' := fst (setStream stream (fst (setFormat format API))) in
  method_get name (API_methods API) = Some (logWrap level) ->
  API_methods API' = API_methods API /\
  getLevel API' = getLevel API /\
  forall env (st : store) self arguments ambient,
    st !! self = Some API' ->
    getter_returns st (API_getContext API) ambient ->
    exists fuel0, forall fuel, (fuel0 <= fuel)%nat ->
      call name fuel env st self arguments =
      let r := resolve ambient arguments in
      let context := js_or (rec_context r) (VObj []) in
      match format env level context (rec_message r) (rec_args r) (rec_err r) with
      | Ok trace =>
          Some ([EvFormat level context (rec_message r) (rec_args r) (rec_err r);
                 EvWrite stream (to_string trace +:+ LF)], Ok tt)
      | Throw e =>
          Some ([EvFormat level context (rec_message r) (rec_args r) (rec_err r)], Throw e)
      end.
Proof.
  cbv zeta. intros Hfn. split; [reflexivity|]. split; [reflexivity|].
  intros env st self arguments ambient Hself Hret.
  destruct (log_with_context level env st self arguments _ ambient Hself Hret) as [fuel0 Hlog].
  exists fuel0. intros fuel Hle. unfold call. rewrite Hself. cbn [mbind option_bind].
  change (API_methods (fst (setStream stream (fst (setFormat format API)))))
    with (API_methods API).
  rewrite Hfn. exact (Hlog fuel Hle).
Qed.


(** ** Settings outside the instance *)

(** X23. Options that are given win over the environment.  An instance
    made with its level, format, context getter and stream all given
    is the same whatever [LOGOPS_LEVEL], [LOGOPS_FORMAT] and
    [NODE_ENV] hold, and so is the result of [child], which gives all
    four; with only the level given, the level of the instance is the
    one given. *)
Theorem options_override_environment (penv penv' : process_env) (st : store) (self : nat)
    (localContext level : value) (format : formatter) (fn : getter) (stream : sink)
    (options : options) (API : logger) :
  logops penv {| opt_level := Some level; opt_format := Some format;
                 opt_getContext := Some fn; opt_stream := Some stream |} =
  logops penv' {| opt_level := Some level; opt_format := Some format;
                  opt_getContext := Some fn; opt_stream := Some stream |} /\
  child penv st self localContext = child penv' st self localContext /\
  (opt_level options = Some level -> logops penv options = Ok API -> getLevel API = level).
Proof.
  split; [rewrite !logops_with_options; reflexivity|]. split.
  - unfold child, create. destruct (st !! self) as [parent|]; [|reflexivity].
    cbn [mbind option_bind]. rewrite !logops_with_options. reflexivity.
  - intros Hlevel. unfold logops. rewrite Hlevel.
    cbn [default from_option id opts_level].
    destruct (setLevel level _) as [made r] eqn:Hset.
    destruct r as [[]|e]; cbn [bind]; [|discriminate].
    intros Hmade. injection Hmade as <-.
    change made with (fst (made, Ok tt : result unit)). rewrite <- Hset.
    unfold setLevel, getLevel. cbv beta zeta.
    repeat match goal with
           | |- context [match ?x with _ => _ end] => destruct x
           end; reflexivity.
Qed.

(** X24. What each formatter reads of the settings of the module.  The
    human formatter reads [stacktracesWith] and [omit], never the
    clock; the structured formatter reads the clock and
    [stacktracesWith]; the delimited formatter reads the clock and the
    placeholder.  So [setNotAvailable] changes nothing in the output of
    the human and the structured formatter. *)
Theorem formatters_read_their_settings (env env' : fmt_env) (na : value) (level : string)
    (context message : value) (args : list value) (err : value) :
  (stacktracesWith env = stacktracesWith env' -> omit env = omit env' ->
   formatDevTrace env level context message args err =
   formatDevTrace env' level context message args err) /\
  (now env = now env' -> stacktracesWith env = stacktracesWith env' ->
   formatJsonTrace env level context message args err =
   formatJsonTrace env' level context message args err) /\
  (now env = now env' -> notAvailable env = notAvailable env' ->
   formatTrace env level context message args err =
   formatTrace env' level context message args err) /\
  formatDevTrace (setNotAvailable na env) level context message args err =
  formatDevTrace env level context message args err /\
  formatJsonTrace (setNotAvailable na env) level context message args err =
  formatJsonTrace env level context message args err.
Proof.
  destruct env as [clock placeholder traces omitted],
           env' as [clock' placeholder' traces' omitted'].
  cbn [now notAvailable stacktracesWith omit].
  repeat split; try (intros -> ->); reflexivity.
Qed.

End Properties.

(** * The properties on the executable platform *)

Import Model.

(** [module.exports = logops()] *)
Example logops_default : logops empty_env no_options = Ok root_logger.
Proof. reflexivity. Qed.

(** The delimited formatter on the calls of the test suite *)
Example info_formatted_string :
  call "info" 1 (default_env 0) [pipe_logger] 0
       [VStr "Format %s %d %j"; VStr "foo"; VNum 4; VObj [("bar", VNum 5)]] =
  Some ([EvFormat "INFO" (VObj []) (VStr "Format %s %d %j")
           [VStr "foo"; VNum 4; VObj [("bar", VNum 5)]] VUndefined;
         EvWrite stdout (epoch_line "Format foo 4 {" +:+ String DQUOTE "bar"
                         +:+ String DQUOTE ":5}" +:+ LF)], Ok tt).
Proof. vm_compute. reflexivity. Qed.

Example info_error_with_format :
  call "info" 1 (default_env 0) [pipe_logger] 0
       [VErr "Error" "foo"; VStr "Format %s"; VStr "works"] =
  Some ([EvFormat "INFO" (VObj []) (VStr "Format %s") [VStr "works"] (VErr "Error" "foo");
         EvWrite stdout (epoch_line "Format works [Error: foo]" +:+ LF)], Ok tt).
Proof. vm_compute. reflexivity. Qed.

Example info_extra_error :
  call "info" 1 (default_env 0) [pipe_logger] 0 [VStr "Format"; VErr "Error" "foo"] =
  Some ([EvFormat "INFO" (VObj []) (VStr "Format") [VErr "Error" "foo"] VUndefined;
         EvWrite stdout (epoch_line "Format [Error: foo]" +:+ LF)], Ok tt).
Proof. vm_compute. reflexivity. Qed.

Example debug_disabled :
  call "debug" 0 (default_env 0) [pipe_logger] 0 [VStr "hidden"] = Some ([], Ok tt).
Proof. reflexivity. Qed.

(** [setNotAvailable('NOTAVAILABLE')], then a call with an empty context *)
Example info_custom_not_available :
  formatTrace (setNotAvailable (VStr "NOTAVAILABLE") (default_env 0)) "INFO" (VObj [])
              (VStr EmptyString) [] VUndefined =
  Ok (VStr ("time=1970-01-01T00:00:00.000Z | lvl=INFO | corr=NOTAVAILABLE | "
            +:+ "trans=NOTAVAILABLE | op=NOTAVAILABLE | msg=")).
Proof. vm_compute. reflexivity. Qed.

(** [setLevel] assigns [opts.level] before it asks for [toUpperCase] *)
Example setLevel_number :
  exists msg, snd (setLevel (VNum 5) root_logger) = Throw (TypeError msg) /\
              getLevel (fst (setLevel (VNum 5) root_logger)) = VNum 5.
Proof. eexists. split; reflexivity. Qed.

(** A cause of [null] is written as the member [err] with the value [null] *)
Example json_err_null :
  formatJsonTrace (default_env 0) "INFO" (VObj []) (VStr "m") [] VNull =
  Ok (VStr ("{" +:+ quote "time" +:+ ":" +:+ quote "1970-01-01T00:00:00.000Z" +:+ ","
            +:+ quote "lvl" +:+ ":" +:+ quote "INFO" +:+ ","
            +:+ quote "err" +:+ ":null," +:+ quote "msg" +:+ ":" +:+ quote "m" +:+ "}")).
Proof. vm_compute. reflexivity. Qed.

(** C1 does not hold as stated.  [setLevel('verbose')] returns although
    [VERBOSE] is none of the five levels. *)
Lemma setLevel_unknown_name_returns :
  ~ (forall name : string,
       indexOf levels (toUpperCase name) = -1 ->
       exists e, snd (setLevel (VStr name) root_logger) = Throw e).
Proof.
  intros H. destruct (H "verbose" eq_refl) as [e He]. cbv in He. discriminate He.
Qed.

Lemma setLevel_accepts_every_string_witness :
  snd (setLevel (VStr "verbose") root_logger) = Ok tt /\
  getLevel (fst (setLevel (VStr "verbose") root_logger)) = VStr "verbose" /\
  method_get "debug" (API_methods (fst (setLevel (VStr "verbose") root_logger))) =
    Some (logWrap "DEBUG").
Proof.
  destruct (setLevel_accepts_every_string root_logger "verbose") as (H1 & H2 & H3).
  split; [exact H1|]. split; [exact H2|].
  exact (H3 eq_refl "DEBUG" (or_introl eq_refl)).
Defined.

(** C2 does not hold as stated.  A call whose only argument is a date
    is a call that leads with a context. *)
Lemma date_only_call_is_context_led :
  ~ (forall d : Z, classify [VDate d] <> ContextLed).
Proof.
  intros H. apply (H 0). reflexivity.
Qed.

Lemma setLevel_gates_levels_witness :
  call "info" 0 (default_env 0) [fst (setLevel (VStr "warn") root_logger)] 0 [VStr "hello"] =
    Some ([], Ok tt) /\
  exists fuel0, forall fuel, (fuel0 <= fuel)%nat ->
    call "error" fuel (default_env 0) [fst (setLevel (VStr "warn") pipe_logger)] 0
         [VStr "hello"] =
    Some ([EvFormat "ERROR" (VObj []) (VStr "hello") [] VUndefined;
           EvWrite stdout
             ("time=1970-01-01T00:00:00.000Z | lvl=ERROR | corr=n/a | trans=n/a | op=n/a | msg=hello"
              +:+ LF)], Ok tt).
Proof.
  assert (Hwarn : 0 <= indexOf levels (toUpperCase "warn")) by (vm_compute; discriminate).
  split.
  - exact (proj1 (proj2 (setLevel_gates_levels root_logger "warn" "INFO"
                           (or_intror (or_introl eq_refl)) Hwarn)
                        (default_env 0) [fst (setLevel (VStr "warn") root_logger)] 0%nat
                        [VStr "hello"] eq_refl) 0%nat).
  - exact (proj2 (proj2 (setLevel_gates_levels pipe_logger "warn" "ERROR"
                           (or_intror (or_intror (or_intror (or_introl eq_refl)))) Hwarn)
                        (default_env 0) [fst (setLevel (VStr "warn") pipe_logger)] 0%nat
                        [VStr "hello"] eq_refl)
                 eq_refl (VObj []) (user_returns _ (VObj []))).
Defined.



Lemma undefined_message_rendered_witness :
  log "INFO" 1 (default_env 0) [pipe_logger] 0 [] =
  Some ([EvFormat "INFO" (VObj []) VUndefined [] VUndefined;
         EvWrite stdout (epoch_line "undefined" +:+ LF)], Ok tt).
Proof.
  destruct (undefined_message_rendered (default_env 0) "INFO" (VObj []) (VObj []))
    as (_ & _ & _ & _ & _ & _ & H).
  exact (H pipe_logger [pipe_logger] 0%nat 0%nat eq_refl eq_refl eq_refl).
Defined.

(** C9 does not hold as stated.  The message 5 and a cause whose name
    is empty and whose message is "5" have the same text, before and
    after interpolation, and the cause is appended all the same; so it
    is with the format string [Error: %s] and the argument [foo], whose
    interpolation is the text of the cause [Error: foo], and with the
    array ['Error: foo'], which is written [msg=Error: foo]. *)
Lemma cause_appended_despite_equal_text :
  (to_string (VErr "" "5") = to_string (VNum 5) /\
   to_string (VErr "" "5") = util_format [VNum 5] /\
   formatTrace_args (default_env 0) "INFO" (VObj []) (VNum 5) [] (VErr "" "5") =
     [VStr (epoch_line "5"); VErr "" "5"]) /\
  (to_string (VErr "Error" "foo") = util_format [VStr "Error: %s"; VStr "foo"] /\
   formatTrace_args (default_env 0) "INFO" (VObj []) (VStr "Error: %s") [VStr "foo"]
                    (VErr "Error" "foo") =
     [VStr (epoch_line "Error: %s"); VStr "foo"; VErr "Error" "foo"]) /\
  (to_string (VErr "Error" "foo") = to_string (VArr [VStr "Error: foo"]) /\
   formatTrace_args (default_env 0) "INFO" (VObj []) (VArr [VStr "Error: foo"]) []
                    (VErr "Error" "foo") =
     [VStr (epoch_line "Error: foo"); VErr "Error" "foo"]).
Proof. repeat split. Qed.

Lemma formatTrace_appends_cause_witness :
  formatTrace_args (default_env 0) "INFO" (VObj []) (VStr "Error: foo") [] (VErr "Error" "foo") =
    [VStr (epoch_line "Error: foo")] /\
  formatTrace_args (default_env 0) "INFO" (VObj []) (VStr "Format") [] (VErr "Error" "foo") =
    [VStr (epoch_line "Format"); VErr "Error" "foo"] /\
  log "INFO" 1 (default_env 0) [pipe_logger] 0 [VErr "Error" "foo"] =
  Some ([EvFormat "INFO" (VObj []) (VStr "Error: foo") [] (VErr "Error" "foo");
         EvWrite stdout (epoch_line "Error: foo" +:+ LF)], Ok tt).
Proof.
  split; [|split].
  - exact (proj1 (formatTrace_appends_cause (default_env 0) "INFO" (VObj [])
                    (VStr "Error: foo") [] "Error" "foo") eq_refl).
  - exact (proj1 (proj2 (formatTrace_appends_cause (default_env 0) "INFO" (VObj [])
                           (VStr "Format") [] "Error" "foo"))
                 ltac:(discriminate)).
  - destruct (formatTrace_appends_cause (default_env 0) "INFO" (VObj [])
                (VStr "Format") [] "Error" "foo") as (_ & _ & _ & _ & _ & H).
    exact (H pipe_logger [pipe_logger] 0%nat 0%nat eq_refl eq_refl eq_refl).
Defined.


(** * The further properties at concrete calls *)

Lemma resolve_message_first_witness :
  resolve (VObj []) [VArr [VStr "Sample"; VStr "Array"]; VNum 4] =
    {| rec_context := VObj []; rec_message := VArr [VStr "Sample"; VStr "Array"];
       rec_args := [VNum 4]; rec_err := VUndefined |}.
Proof.
  exact (proj2 (resolve_message_first (VObj []) (VArr [VStr "Sample"; VStr "Array"])
                  [VNum 4] (or_intror (or_intror eq_refl)))).
Defined.

Lemma setLevel_rejects_non_string_witness :
  getLevel (fst (setLevel (VNum 5) root_logger)) = VNum 5 /\
  API_methods (fst (setLevel (VNum 5) root_logger)) = API_methods root_logger.
Proof.
  assert (Hnum : forall s, VNum 5 <> VStr s) by (intros s; discriminate).
  destruct (setLevel_rejects_non_string (VNum 5) root_logger Hnum eq_refl)
    as (_ & Hlevel & Hmethods & _).
  split; [exact Hlevel | exact Hmethods].
Defined.

Lemma setLevel_is_threshold_witness :
  method_get "fatal" (API_methods (fst (setLevel (VStr "off") root_logger))) =
    Some (logWrap "FATAL") /\
  method_get "error" (API_methods (fst (setLevel (VStr "WARN") root_logger))) =
    Some (logWrap "ERROR").
Proof.
  split.
  - exact (proj1 (setLevel_is_threshold root_logger "off" "DEBUG" "INFO")).
  - assert (Hw : In "WARN" levels) by (vm_compute; tauto).
    assert (He : In "ERROR" levels) by (vm_compute; tauto).
    assert (Hle : indexOf levels "WARN" <= indexOf levels "ERROR")
      by (vm_compute; discriminate).
    exact (proj1 (proj2 (setLevel_is_threshold root_logger "WARN" "WARN" "ERROR")
                   Hw He Hle) eq_refl).
Defined.

Lemma call_writes_at_most_once_witness :
  exists events outcome,
    call "info" 1 (default_env 0) [pipe_logger] 0 [VStr "hello"] = Some (events, outcome) /\
    (events = [] \/
     exists level context message args err,
       truthy context = true /\
       ((exists e,
           API_format pipe_logger (default_env 0) level context message args err = Throw e /\
           events = [EvFormat level context message args err] /\ outcome = Throw e) \/
        (exists trace,
           API_format pipe_logger (default_env 0) level context message args err = Ok trace /\
           events = [EvFormat level context message args err;
                     EvWrite (API_stream pipe_logger) (to_string trace +:+ LF)] /\
           outcome = Ok tt))).
Proof.
  exists [EvFormat "INFO" (VObj []) (VStr "hello") [] VUndefined;
          EvWrite stdout (epoch_line "hello" +:+ LF)], (Ok tt).
  split; [reflexivity|].
  exact (call_writes_at_most_once "info" 1 (default_env 0) [pipe_logger] 0 [VStr "hello"]
           pipe_logger _ _ eq_refl eq_refl).
Defined.



Lemma child_after_failed_setLevel_witness :
  exists e,
    child empty_env [fst (setLevel (VNum 5) root_logger)] 0 (VObj []) =
    Some ([fst (setLevel (VNum 5) root_logger)], Throw e).
Proof.
  eexists.
  exact (child_after_failed_setLevel empty_env [root_logger] _ 0 (VNum 5) (VObj []) _
           eq_refl eq_refl).
Defined.

Lemma getter_cycle_never_returns_witness :
  let kid := fst (setContextGetter (child_getter 0 (VObj [])) root_logger) in
  log "INFO" 100 (default_env 0) [kid; kid] 1 [VStr "hello"] = None /\
  log "INFO" 100 (default_env 0) [kid; kid] 0 [VStr "hello"] = None.
Proof.
  cbv zeta.
  destruct (getter_cycle_never_returns
              [root_logger; fst (setContextGetter (child_getter 0 (VObj [])) root_logger)]
              _ 0 1 _ (VObj []) (Ok tt) eq_refl ltac:(discriminate) eq_refl eq_refl)
    as [_ Hlog].
  split.
  - exact (Hlog 1%nat "INFO" 100%nat (default_env 0) [VStr "hello"] (or_intror eq_refl)).
  - exact (Hlog 0%nat "INFO" 100%nat (default_env 0) [VStr "hello"] (or_introl eq_refl)).
Defined.





Lemma formatDevTrace_indented_witness :
  reindent "one line" = "one line".
Proof.
  destruct (formatDevTrace_indented (default_env 0) "INFO" (VObj []) (VStr "m") []
              VUndefined) as (_ & _ & Hsame).
  exact (Hsame "one line" eq_refl).
Defined.

Lemma colorize_by_line_witness :
  split_lines (colorize (fun part => "<" +:+ part +:+ ">") ("a" +:+ LF +:+ "b")) =
  ["<a>"; "<b>"].
Proof.
  assert (Hcolor : forall part, no_line_feed part = true ->
                     no_line_feed ("<" +:+ part +:+ ">") = true).
  { intros part Hpart. rewrite !no_line_feed_append, Hpart. reflexivity. }
  exact (proj2 (proj2 (colorize_by_line (fun part => "<" +:+ part +:+ ">")
                         ("a" +:+ LF +:+ "b"))) Hcolor).
Defined.

Lemma formatDevTrace_error_once_witness :
  formatDevTrace (default_env 0) "ERROR" (VObj []) (VStr "Error: foo") []
                 (VErr "Error" "foo") = Ok (VStr "ERROR Error: foo") /\
  formatDevTrace (default_env 0) "ERROR" (VObj []) (VStr "Failed") []
                 (VErr "Error" "foo") =
    Ok (VStr ("ERROR Failed" +:+ LF +:+ "      Error: foo")).
Proof.
  split.
  - exact (proj1 (formatDevTrace_error_once (default_env 0) "ERROR" (VObj [])
                    (VStr "Error: foo") [] "Error" "foo" EmptyString) eq_refl eq_refl).
  - assert (Hne : util_format ([VStr "Failed"] ++ []) <> "Error" +:+ ": " +:+ "foo")
      by (vm_compute; discriminate).
    exact (proj2 (formatDevTrace_error_once (default_env 0) "ERROR" (VObj [])
                    (VStr "Failed") [] "Error" "foo" EmptyString) Hne).
Defined.



Lemma setters_are_late_bound_witness :
  let API' := fst (setStream 7%nat (fst (setFormat formatTrace root_logger))) in
  exists fuel0, forall fuel, (fuel0 <= fuel)%nat ->
    call "info" fuel (default_env 0) [API'] 0 [VStr "hello"] =
    Some ([EvFormat "INFO" (VObj []) (VStr "hello") [] VUndefined;
           EvWrite 7%nat (epoch_line "hello" +:+ LF)], Ok tt).
Proof.
  cbv zeta.
  destruct (setters_are_late_bound root_logger formatTrace 7%nat "info" "INFO" eq_refl)
    as (_ & _ & Hcall).
  exact (Hcall (default_env 0)
                [fst (setStream 7%nat (fst (setFormat formatTrace root_logger)))]
                0%nat [VStr "hello"] VUndefined eq_refl (noop_returns _)).
Defined.


Lemma options_override_environment_witness :
  exists API : logger,
    logops {| LOGOPS_LEVEL := Some "DEBUG"; LOGOPS_FORMAT := Some "pipe"; NODE_ENV := None |}
           {| opt_level := Some (VStr "ERROR"); opt_format := None;
              opt_getContext := None; opt_stream := None |} = Ok API /\
    getLevel API = VStr "ERROR".
Proof.
  eexists. split; [reflexivity|].
  exact (proj2 (proj2 (options_override_environment
                         {| LOGOPS_LEVEL := Some "DEBUG"; LOGOPS_FORMAT := Some "pipe";
                            NODE_ENV := None |}
                         empty_env [] 0 VUndefined (VStr "ERROR") formatTrace noop_getter
                         stdout
                         {| opt_level := Some (VStr "ERROR"); opt_format := None;
                            opt_getContext := None; opt_stream := None |} _))
               eq_refl eq_refl).
Defined.

Lemma formatters_read_their_settings_witness :
  formatDevTrace (default_env 0) "INFO" (VObj []) (VStr "hello") [] VUndefined =
  formatDevTrace (setNotAvailable (VStr "none") (default_env 86400000)) "INFO" (VObj [])
                 (VStr "hello") [] VUndefined.
Proof.
  exact (proj1 (formatters_read_their_settings (default_env 0)
                  (setNotAvailable (VStr "none") (default_env 86400000)) VUndefined "INFO"
                  (VObj []) (VStr "hello") [] VUndefined) eq_refl eq_refl).
Defined.
